(** * csv2avro: the document-cleaning batch job and the table updater

  A shallow embedding of [src/main.py] (the batch job that strips markup
  from raw documents) and of [src/utils/table_update.py] (the YAML-driven
  table creator and bulk inserter), followed by the properties of these
  programs.

  Python code runs in a small state-and-exception monad [M].  The state
  holds everything the two programs mutate or consult outside their local
  expressions: the PostgreSQL database, the open transaction of the
  current connection, the operational log, the script of transient
  failures of the outside world, the [tables] attribute of the
  [TableUpdater] instance, and the two counters of the batch job. *)

From Stdlib Require Import ZArith String Ascii List Bool Lia.
From stdpp Require Import base option list strings gmap pretty.

Local Open Scope string_scope.
Local Open Scope Z_scope.
Local Open Scope list_scope.

(** ** Python values and exceptions *)

Module Py.

(** A scalar as it sits in a DataFrame cell, a row dict or a SQL cell. *)
Inductive value : Type :=
| VNone
| VInt (n : Z)
| VStr (s : string).

#[global] Instance value_eq_dec : EqDecision value.
Proof. solve_decision. Defined.

(** The exception classes the two programs can meet. [NoSuchTableError]
    derives from [SQLAlchemyError]; all of them derive from [Exception]. *)
Inductive exn : Type :=
| SQLAlchemyError (msg : string)
| NoSuchTableError (table : string)
| KeyError (key : string)
| NameError (name : string)
| TypeError (msg : string)
| ValueError (msg : string)
| ParserError (msg : string).

#[global] Instance exn_eq_dec : EqDecision exn.
Proof. solve_decision. Defined.

(** [isinstance(e, SQLAlchemyError)] *)
Definition is_SQLAlchemyError (e : exn) : bool :=
  match e with
  | SQLAlchemyError _ | NoSuchTableError _ => true
  | _ => false
  end.

(** [str(e)] *)
Definition str_exn (e : exn) : string :=
  match e with
  | SQLAlchemyError msg => msg
  | NoSuchTableError t => t
  | KeyError k => "'" +:+ k +:+ "'"
  | NameError n => "name '" +:+ n +:+ "' is not defined"
  | TypeError msg => msg
  | ValueError msg => msg
  | ParserError msg => msg
  end.

Inductive Result (A : Type) : Type :=
| Ok (a : A)
| Raise (e : exn).
Arguments Ok {A} a.
Arguments Raise {A} e.

(** [sep.join(parts)] *)
Fixpoint join (sep : string) (parts : list string) : string :=
  match parts with
  | [] => ""
  | [s] => s
  | s :: rest => s +:+ sep +:+ join sep rest
  end.

(** [repr] of a list of [str] *)
Definition repr_list (l : list string) : string :=
  "[" +:+ join ", " ((λ s, "'" +:+ s +:+ "'") <$> l) +:+ "]".

(** A [str] is held as its UTF-8 bytes.  The white space that
    [str.strip()] removes is that of [str.isspace()]: U+0009 to U+000D,
    U+001C to U+0020, U+0085, U+00A0, U+1680, U+2000 to U+200A, U+2028,
    U+2029, U+202F, U+205F and U+3000, here as the bytes of one encoded
    character. *)
Definition is_space (char : list nat) : bool :=
  match char with
  | [a] => ((9 <=? a) && (a <=? 13) || (28 <=? a) && (a <=? 32))%nat
  | [a; b] => ((a =? 194) && ((b =? 133) || (b =? 160)))%nat
  | [a; b; c] =>
      ((a =? 225) && (b =? 154) && (c =? 128)
       || (a =? 226) && (b =? 128)
          && ((128 <=? c) && (c <=? 138) || (c =? 168) || (c =? 169) || (c =? 175))
       || (a =? 226) && (b =? 129) && (c =? 159)
       || (a =? 227) && (b =? 128) && (c =? 128))%nat
  | _ => false
  end.

(** The number of bytes of the white-space character among [chars 1],
    [chars 2] and [chars 3], zero when none of them is one. *)
Definition space_width (chars : nat → list ascii) : nat :=
  if is_space (nat_of_ascii <$> chars 1%nat) then 1
  else if is_space (nat_of_ascii <$> chars 2%nat) then 2
  else if is_space (nat_of_ascii <$> chars 3%nat) then 3
  else 0.

(** The width of the white-space character a string starts with, and of
    the one a string ends with when it is given last byte first. *)
Definition leading_space (l : list ascii) : nat := space_width (λ w, take w l).
Definition trailing_space (r : list ascii) : nat := space_width (λ w, rev (take w r)).

(** Dropping characters from the front as long as [width] finds one. *)
Fixpoint drop_spaces (width : list ascii → nat) (fuel : nat) (l : list ascii) : list ascii :=
  match fuel with
  | O => l
  | S fuel =>
      match width l with
      | O => l
      | w => drop_spaces width fuel (drop w l)
      end
  end.

Definition lstrip (s : string) : string :=
  let l := list_ascii_of_string s in
  string_of_list_ascii (drop_spaces leading_space (length l) l).

Definition rstrip (s : string) : string :=
  let r := rev (list_ascii_of_string s) in
  string_of_list_ascii (rev (drop_spaces trailing_space (length r) r)).

Definition strip (s : string) : string := rstrip (lstrip s).

End Py.
Export Py.

(** ** The relational store *)

Module Sql.

(** A row maps column names to cells; a column without an entry reads
    as NULL. *)
Abbreviation Row := (gmap string value).

Definition cell (r : Row) (c : string) : value := default VNone (r !! c).

Record DbColumn : Type := {
  dbc_name : string;
  dbc_type : string;
  dbc_primary_key : bool;
  dbc_foreign_key : option string
}.

#[global] Instance DbColumn_eq_dec : EqDecision DbColumn.
Proof. solve_decision. Defined.

Record SqlTable : Type := {
  t_columns : list DbColumn;
  t_rows : list Row
}.

Abbreviation Database := (gmap string SqlTable).

Definition column_names (t : SqlTable) : list string := dbc_name <$> t_columns t.

Definition pk_columns (t : SqlTable) : list string :=
  dbc_name <$> filter (λ c, dbc_primary_key c = true) (t_columns t).

(** SQL [a = b]: NULL on either side never compares equal. *)
Definition sql_eq (a b : value) : bool :=
  match a, b with
  | VNone, _ | _, VNone => false
  | _, _ => bool_decide (a = b)
  end.

(** The rows of [rows] that agree with [r] on every primary-key column
    (the rows an insert of [r] would conflict with). *)
Definition same_key (pk : list string) (r r' : Row) : bool :=
  forallb (λ c, sql_eq (cell r c) (cell r' c)) pk.

Definition conflicts (t : SqlTable) (r : Row) : bool :=
  match pk_columns t with
  | [] => false
  | pk => existsb (same_key pk r) (t_rows t)
  end.

(** What PostgreSQL checks before it stores [r] in [t]: every supplied
    column exists, and no primary-key column is NULL. *)
Definition insertable (t : SqlTable) (r : Row) : Result unit :=
  if negb (bool_decide (dom r ⊆ list_to_set (C:=gset string) (column_names t))) then
    Raise (SQLAlchemyError "column does not exist")
  else if existsb (λ c, bool_decide (cell r c = VNone)) (pk_columns t) then
    Raise (SQLAlchemyError "null value in column violates not-null constraint")
  else Ok ().

Definition append_row (t : SqlTable) (r : Row) : SqlTable :=
  {| t_columns := t_columns t; t_rows := t_rows t ++ [r] |}.

(** [INSERT INTO t VALUES r] *)
Definition insert_row (t : SqlTable) (r : Row) : Result SqlTable :=
  match insertable t r with
  | Raise e => Raise e
  | Ok _ =>
      if conflicts t r
      then Raise (SQLAlchemyError "duplicate key value violates unique constraint")
      else Ok (append_row t r)
  end.

(** [INSERT INTO t VALUES r ON CONFLICT DO NOTHING] *)
Definition insert_row_on_conflict_do_nothing (t : SqlTable) (r : Row) : Result SqlTable :=
  match insertable t r with
  | Raise e => Raise e
  | Ok _ => if conflicts t r then Ok t else Ok (append_row t r)
  end.

(** A multi-row [INSERT]: all rows or none. *)
Fixpoint insert_rows (t : SqlTable) (rows : list Row) : Result SqlTable :=
  match rows with
  | [] => Ok t
  | r :: rest =>
      match insert_row t r with
      | Ok t' => insert_rows t' rest
      | Raise e => Raise e
      end
  end.

(** [SELECT * FROM raw t1 WHERE NOT EXISTS (SELECT 1 FROM processed t2
    WHERE t1.id = t2.id) LIMIT limit], on two tables that have an [id]
    column.  Rows come back in table order. *)
Definition matched (processed : list Row) (t1 : Row) : bool :=
  existsb (λ t2, sql_eq (cell t1 "id") (cell t2 "id")) processed.

Definition not_exists_query (raw processed : list Row) (limit : nat) : list Row :=
  take limit (List.filter (λ t1, negb (matched processed t1)) raw).

End Sql.
Export Sql.

(** ** The interpreter state and the monad of Python code *)

Module Runtime.

(** A SQLAlchemy column type: the class named in [type_mapping], and
    whether it was instantiated with [timezone=True]. *)
Record SaType : Type := {
  ty_class : string;
  ty_timezone : bool
}.

#[global] Instance SaType_eq_dec : EqDecision SaType.
Proof. solve_decision. Defined.

(** [Column(name, type, ForeignKey(...))] and
    [Column(name, type, primary_key=...)] *)
Record Column : Type := {
  c_name : string;
  c_type : SaType;
  c_primary_key : bool;
  c_foreign_key : option string
}.

#[global] Instance Column_eq_dec : EqDecision Column.
Proof. solve_decision. Defined.

(** A [Table] object of the updater's [MetaData]. *)
Record Table : Type := {
  tbl_name : string;
  tbl_columns : list Column
}.

#[global] Instance Table_eq_dec : EqDecision Table.
Proof. solve_decision. Defined.

(** What the programs leave in the operational log and on standard
    output, and the transaction commands they send. *)
Inductive Event : Type :=
| LogInfo (msg : string)
| LogError (msg : string)
| Print (msg : string)
| Begin
| Commit
| Rollback.

#[global] Instance Event_eq_dec : EqDecision Event.
Proof. solve_decision. Defined.

Record State : Type := {
  db : Database;                  (* the PostgreSQL database *)
  tx : option Database;           (* open transaction: the state to roll back to *)
  events : list Event;            (* log, stdout and transaction commands, oldest first *)
  faults : list (option exn);     (* outcome of the next calls to the outside world *)
  tables : gmap string Table;     (* TableUpdater.tables *)
  processed_count : Z;            (* main.py: processed_count *)
  error_columns : list string     (* main.py: error_columns *)
}.

Definition set_db (d : Database) (s : State) : State :=
  {| db := d; tx := tx s; events := events s; faults := faults s;
     tables := tables s; processed_count := processed_count s;
     error_columns := error_columns s |}.

Definition set_tx (t : option Database) (s : State) : State :=
  {| db := db s; tx := t; events := events s; faults := faults s;
     tables := tables s; processed_count := processed_count s;
     error_columns := error_columns s |}.

Definition set_events (l : list Event) (s : State) : State :=
  {| db := db s; tx := tx s; events := l; faults := faults s;
     tables := tables s; processed_count := processed_count s;
     error_columns := error_columns s |}.

Definition set_faults (f : list (option exn)) (s : State) : State :=
  {| db := db s; tx := tx s; events := events s; faults := f;
     tables := tables s; processed_count := processed_count s;
     error_columns := error_columns s |}.

Definition set_tables (t : gmap string Table) (s : State) : State :=
  {| db := db s; tx := tx s; events := events s; faults := faults s;
     tables := t; processed_count := processed_count s;
     error_columns := error_columns s |}.

Definition set_processed_count (n : Z) (s : State) : State :=
  {| db := db s; tx := tx s; events := events s; faults := faults s;
     tables := tables s; processed_count := n;
     error_columns := error_columns s |}.

Definition set_error_columns (l : list string) (s : State) : State :=
  {| db := db s; tx := tx s; events := events s; faults := faults s;
     tables := tables s; processed_count := processed_count s;
     error_columns := l |}.

Definition M (A : Type) : Type := State → Result A * State.

Definition ret {A} (a : A) : M A := λ s, (Ok a, s).

Definition bind {A B} (m : M A) (k : A → M B) : M B :=
  λ s, match m s with
       | (Ok a, s') => k a s'
       | (Raise e, s') => (Raise e, s')
       end.

Definition raise {A} (e : exn) : M A := λ s, (Raise e, s).

Definition get : M State := λ s, (Ok s, s).

(** The outcome of a computation that touches no state. *)
Definition lift {A} (r : Result A) : M A := λ s, (r, s).

Definition modify (f : State → State) : M unit := λ s, (Ok (), f s).

Notation "x <- m ;; k" := (bind m (λ x, k))
  (at level 100, m at next level, right associativity).
Notation "m ;;; k" := (bind m (λ _, k))
  (at level 100, right associativity).

(** [try: body / except <classes>: handler]: the handler runs on the
    state the body left behind. *)
Definition try_except {A} (body : M A) (catches : exn → bool) (handler : exn → M A) : M A :=
  λ s, match body s with
       | (Raise e, s') => if catches e then handler e s' else (Raise e, s')
       | ok => ok
       end.

(** [try: body / finally: cleanup] *)
Definition try_finally {A} (body : M A) (cleanup : M unit) : M A :=
  λ s, match body s with
       | (r, s') =>
           match cleanup s' with
           | (Ok _, s'') => (r, s'')
           | (Raise e, s'') => (Raise e, s'')
           end
       end.

Definition Exception (e : exn) : bool := true.

Definition emit (ev : Event) : M unit :=
  modify (λ s, set_events (events s ++ [ev]) s).

Definition logging_info (msg : string) : M unit := emit (LogInfo msg).
Definition logging_error (msg : string) : M unit := emit (LogError msg).
Definition print (msg : string) : M unit := emit (Print msg).

(** A call that leaves the process (a connection attempt, a statement
    sent to the server) first consults the script of failures: the next
    entry, when there is one and it holds an exception, is raised. *)
Definition outside_world : M unit :=
  λ s, match faults s with
       | Some e :: rest => (Raise e, set_faults rest s)
       | None :: rest => (Ok (), set_faults rest s)
       | [] => (Ok (), s)
       end.

(** Leaving a [with engine.connect() as conn] block closes the
    connection; a transaction still open is rolled back by the server. *)
Definition close : M unit :=
  λ s, match tx s with
       | Some before => (Ok (), set_tx None (set_db before s))
       | None => (Ok (), s)
       end.

(** [with self.engine.connect() as conn: body]: the new connection
    starts outside any transaction. *)
Definition with_engine_connect {A} (body : M A) : M A :=
  outside_world ;;;
  modify (set_tx None) ;;;
  try_finally body close.

(** [trans = conn.begin()], [trans.commit()], [trans.rollback()] *)
Definition conn_begin : M unit :=
  emit Begin ;;; modify (λ s, set_tx (Some (db s)) s).

Definition trans_commit : M unit :=
  outside_world ;;; emit Commit ;;; modify (set_tx None).

Definition trans_rollback : M unit :=
  emit Rollback ;;;
  modify (λ s, match tx s with
               | Some before => set_tx None (set_db before s)
               | None => s
               end).

(** A list built by running [f] on each element in turn. *)
Fixpoint mapM {A B} (f : A → M B) (l : list A) : M (list B) :=
  match l with
  | [] => ret []
  | a :: rest => b <- f a ;; bs <- mapM f rest ;; ret (b :: bs)
  end.

End Runtime.
Export Runtime.

(** ** [src/main.py] *)

Module Main.

Definition RAW_DATA_TABLE_NAME : string := "raw_documents".
Definition PROCESSED_DATA_TABLE_NAME : string := "processed_documents".

(** The parse tree [BeautifulSoup] hands back: tags, and strings of two
    kinds.  [NavigableString] stands for the strings that
    [stripped_strings] yields, those of class [NavigableString] or
    [CData]; [Comment] for the strings of every other class, which it
    passes over: comments, doctypes, declarations, processing
    instructions, and the strings the builder files under [style],
    [script], [template], [rt] and [rp] tags. *)
#[warnings="-register-all"]
Inductive Node : Type :=
| NavigableString (text : string)
| Comment (text : string)
| Tag (name : string) (contents : list Node).

(** [for data in soup(names): data.decompose()]: every tag with one of
    the names leaves the tree, with all it contains. *)
Fixpoint decompose (names : list string) (n : Node) : list Node :=
  match n with
  | NavigableString _ | Comment _ => [n]
  | Tag name contents =>
      if bool_decide (name ∈ names) then []
      else [Tag name (flat_map (decompose names) contents)]
  end.

(** [soup.stripped_strings]: the strings of class [NavigableString] or
    [CData] in document order, each stripped, the empty ones skipped. *)
Fixpoint stripped_strings (n : Node) : list string :=
  match n with
  | NavigableString text =>
      match strip text with
      | EmptyString => []
      | kept => [kept]
      end
  | Comment _ => []
  | Tag _ contents => flat_map stripped_strings contents
  end.

(** A [pandas.DataFrame]: named columns and one dict per row. *)
Record DataFrame : Type := {
  df_columns : list string;
  df_rows : list Row
}.

(** [pd.DataFrame()] *)
Definition empty_DataFrame : DataFrame := {| df_columns := []; df_rows := [] |}.

(** [df.empty]: some axis has length zero. *)
Definition df_empty (df : DataFrame) : bool :=
  match df_columns df, df_rows df with
  | _ :: _, _ :: _ => false
  | _, _ => true
  end.

(** [len(df)] *)
Definition df_len (df : DataFrame) : Z := Z.of_nat (length (df_rows df)).

(** [df[column] = df[column].apply(f)]; reading a column the frame does
    not have raises [KeyError]. *)
Definition df_apply (df : DataFrame) (column : string) (f : value → M value) : M DataFrame :=
  if bool_decide (column ∈ df_columns df) then
    cells <- mapM (λ r, f (cell r column)) (df_rows df) ;;
    ret {| df_columns := df_columns df;
           df_rows := zip_with (λ r v, <[column := v]> r) (df_rows df) cells |}
  else raise (KeyError column).

(** What the server answers to the query of [download_table_to_df].
    The statement is refused when a table or an [id] column is missing or
    the limit is negative.  The types of the two [id] columns are not
    followed: a comparison the server has no operator for is a failure of
    the outside world here. *)
Definition run_query (d : Database) (raw_table_name processed_table_name : string)
    (limit : Z) : Result DataFrame :=
  match d !! raw_table_name, d !! processed_table_name with
  | Some raw, Some processed =>
      if bool_decide ("id" ∈ column_names raw)
         && bool_decide ("id" ∈ column_names processed)
         && (0 <=? limit)
      then Ok {| df_columns := column_names raw;
                 df_rows := not_exists_query (t_rows raw) (t_rows processed) (Z.to_nat limit) |}
      else Raise (SQLAlchemyError "ProgrammingError")
  | _, _ => Raise (SQLAlchemyError "relation does not exist")
  end.

(** [pd.read_sql(query, conn)] *)
Definition read_sql (raw_table_name processed_table_name : string) (limit : Z) : M DataFrame :=
  outside_world ;;;
  s <- get ;;
  lift (run_query (db s) raw_table_name processed_table_name limit).

(** The SQL type pandas picks for a column of a table it has to create. *)
Definition inferred_type (rows : list Row) (column : string) : string :=
  match List.filter (λ v, negb (bool_decide (v = VNone))) ((λ r, cell r column) <$> rows) with
  | VInt _ :: _ => "BIGINT"
  | _ => "TEXT"
  end.

(** [df.to_sql(name, engine, index=False, if_exists='append',
    chunksize=2000, method="multi")]: one transaction; the table is
    created from the frame when it does not exist; a frame of at most
    2000 rows goes out as one multi-row insert.  Cells are stored as
    the frame holds them; the types pandas gives the columns of the
    frame are not followed, and a write the server refuses for the type
    of a value is a failure of the outside world here. *)
Definition to_sql (df : DataFrame) (name : string) : M unit :=
  outside_world ;;;
  s <- get ;;
  match db s !! name with
  | None =>
      let created :=
        {| t_columns := (λ c, {| dbc_name := c; dbc_type := inferred_type (df_rows df) c;
                                 dbc_primary_key := false; dbc_foreign_key := None |})
                        <$> df_columns df;
           t_rows := df_rows df |} in
      modify (set_db (<[name := created]> (db s)))
  | Some t =>
      if bool_decide (df_columns df ⊆ column_names t) then
        match insert_rows t (df_rows df) with
        | Ok t' => modify (set_db (<[name := t']> (db s)))
        | Raise e => raise e
        end
      else raise (SQLAlchemyError "column does not exist")
  end.

(** [connect_with_connector()] of [src/pg_connector.py]: builds the
    Cloud SQL connector and the engine. *)
Definition connect_with_connector : M unit := outside_world.

Definition columns_to_clean : list string :=
  ["abstract_de"; "abstract_it"; "abstract_fr"; "content"].

Inductive Flow : Type := Continue | Break.

Section WithParser.

(** [BeautifulSoup(html, "html.parser")]: the parser is a collaborator of
    the program; it returns the top-level nodes of the document or
    raises. *)
Variable BeautifulSoup : value → Result (list Node).

Definition remove_tags (html : value) : M value :=
  try_except
    (match html with
     | VNone => ret (VStr "")
     | _ =>
         soup <- lift (BeautifulSoup html) ;;
         let soup := flat_map (decompose ["style"; "script"]) soup in
         ret (VStr (join " " (flat_map stripped_strings soup)))
     end)
    Exception
    (λ e, logging_error ("Error in remove_tags: " +:+ str_exn e) ;;; ret html).

Definition download_table_to_df (raw_table_name processed_table_name : string)
    (limit : Z) : M DataFrame :=
  try_except
    (with_engine_connect (read_sql raw_table_name processed_table_name limit))
    Exception
    (λ e, logging_error ("Error in download_table_to_df: " +:+ str_exn e) ;;;
          ret empty_DataFrame).

(** [for column in columns_to_clean: try: ... except Exception: ...] *)
Fixpoint clean_columns (columns : list string) (df : DataFrame) : M DataFrame :=
  match columns with
  | [] => ret df
  | column :: rest =>
      df <- try_except
              (df_apply df column remove_tags)
              Exception
              (λ column_error,
                 logging_error ("Error processing column " +:+ column +:+ ": "
                                +:+ str_exn column_error) ;;;
                 modify (λ s, set_error_columns (error_columns s ++ [column]) s) ;;;
                 ret df) ;;
      clean_columns rest df
  end.

(** One turn of the [while True] loop, with its two handlers. *)
Definition loop_body : M Flow :=
  try_except
    (try_except
       (df <- download_table_to_df RAW_DATA_TABLE_NAME PROCESSED_DATA_TABLE_NAME 100 ;;
        modify (λ s, set_processed_count (processed_count s + df_len df) s) ;;;
        if df_empty df then
          logging_info "No new data to process." ;;; ret Break
        else
          df <- clean_columns columns_to_clean df ;;
          to_sql df PROCESSED_DATA_TABLE_NAME ;;;
          logging_info "Data processing and insertion completed successfully." ;;;
          ret Continue)
       is_SQLAlchemyError
       (λ sql_error, logging_error ("SQLAlchemy error: " +:+ str_exn sql_error) ;;; ret Break))
    Exception
    (λ e, logging_error ("Unexpected error: " +:+ str_exn e) ;;; ret Break).

(** [while True: ...]; [None] when the fuel runs out before a [break]. *)
Fixpoint while_true (fuel : nat) (s : State) : option (Result unit * State) :=
  match fuel with
  | O => None
  | S fuel =>
      match loop_body s with
      | (Ok Continue, s') => while_true fuel s'
      | (Ok Break, s') => Some (Ok (), s')
      | (Raise e, s') => Some (Raise e, s')
      end
  end.

Definition dashes : string := "--------------------".

(** The three log lines that close the job. *)
Definition summary : M unit :=
  s <- get ;;
  logging_info ("Processed rows count: " +:+ pretty (processed_count s)) ;;;
  (match error_columns s with
   | [] => ret ()
   | cols => logging_info ("Rows that failed to process: " +:+ repr_list cols)
   end) ;;;
  logging_info (dashes +:+ "End of job" +:+ dashes).

(** The body of the outer [try] of the [__main__] block. *)
Definition main_try (fuel : nat) (s : State) : option (Result unit * State) :=
  match (modify (set_processed_count 0) ;;;
         modify (set_error_columns []) ;;;
         connect_with_connector) s with
  | (Ok _, s) => while_true fuel s
  | (Raise e, s) => Some (Raise e, s)
  end.

(** The [if __name__ == "__main__":] block. *)
Definition main (fuel : nat) (s : State) : option State :=
  let s := snd (logging_info (dashes +:+ "Start of job" +:+ dashes) s) in
  match main_try fuel s with
  | None => None
  | Some (Ok _, s) => Some (snd (summary s))
  | Some (Raise main_error, s) =>
      Some (snd ((logging_error ("Error in main: " +:+ str_exn main_error) ;;; summary) s))
  end.

End WithParser.

End Main.

(** ** [src/utils/table_update.py] *)

Module TableUpdate.

(** The names the module binds at top level: its [import] statements
    and its one class. *)
Definition module_globals : list string :=
  ["yaml"; "create_engine"; "MetaData"; "Table"; "Column"; "ForeignKey";
   "BigInteger"; "Boolean"; "CHAR"; "Date"; "DateTime"; "Float"; "Integer";
   "LargeBinary"; "Numeric"; "SmallInteger"; "String"; "Text"; "Time";
   "TIMESTAMP"; "VARBINARY"; "VARCHAR";
   "insert"; "NoSuchTableError"; "TableUpdater"].

(** The keys of [TableUpdater.type_mapping]. *)
Definition type_mapping : list string :=
  ["BigInteger"; "Boolean"; "CHAR"; "Date"; "DateTime"; "Float"; "Integer";
   "LargeBinary"; "Numeric"; "SmallInteger"; "String"; "Text"; "Time";
   "TIMESTAMP"; "VARBINARY"; "VARCHAR"].

(** The classes whose constructor takes a [timezone] keyword. *)
Definition accepts_timezone (class : string) : bool :=
  bool_decide (class ∈ ["DateTime"; "Time"; "TIMESTAMP"]).

(** [column.type.compile(dialect=conn.dialect)] on PostgreSQL *)
Definition compile_type (ty : SaType) : string :=
  let zone := if ty_timezone ty then " WITH TIME ZONE" else " WITHOUT TIME ZONE" in
  match ty_class ty with
  | "BigInteger" => "BIGINT"
  | "Boolean" => "BOOLEAN"
  | "CHAR" => "CHAR"
  | "Date" => "DATE"
  | "DateTime" => "TIMESTAMP" +:+ zone
  | "Float" => "FLOAT"
  | "Integer" => "INTEGER"
  | "LargeBinary" => "BYTEA"
  | "Numeric" => "NUMERIC"
  | "SmallInteger" => "SMALLINT"
  | "String" => "VARCHAR"
  | "Text" => "TEXT"
  | "Time" => "TIME" +:+ zone
  | "TIMESTAMP" => "TIMESTAMP" +:+ zone
  | other => other
  end.

(** One column and one table of the YAML schema file. *)
Record ColumnSpec : Type := {
  col_name : string;
  col_type : string;
  col_timezone : bool;
  col_primary_key : bool;
  col_foreign_key : option string
}.

Record TableSpec : Type := {
  schema_name : string;
  schema_columns : list ColumnSpec
}.

(** The body of the inner [for col in schema['columns']] loop. *)
Definition build_column (col : ColumnSpec) : M Column :=
  if bool_decide (col_type col ∈ type_mapping) then
    col_type_ <-
      (if col_timezone col then
         if accepts_timezone (col_type col)
         then ret {| ty_class := col_type col; ty_timezone := true |}
         else raise (TypeError "__init__() got an unexpected keyword argument 'timezone'")
       else ret {| ty_class := col_type col; ty_timezone := false |}) ;;
    match col_foreign_key col with
    | Some target =>
        ret {| c_name := col_name col; c_type := col_type_;
               c_primary_key := false; c_foreign_key := Some target |}
    | None =>
        ret {| c_name := col_name col; c_type := col_type_;
               c_primary_key := col_primary_key col; c_foreign_key := None |}
    end
  else raise (KeyError (col_type col)).

(** A column joins a [Table]: it takes the place of a column of the same
    name, or goes to the end. *)
Fixpoint replace_column (existing : list Column) (c : Column) : list Column :=
  match existing with
  | [] => [c]
  | c' :: rest =>
      if bool_decide (c_name c' = c_name c) then c :: rest
      else c' :: replace_column rest c
  end.

(** [Table(table_name, self.metadata, *columns, extend_existing=True)].
    The [MetaData] holds the same [Table] objects, under the same names,
    as [self.tables], which is where they are looked up here. *)
Definition Table_ (table_name : string) (columns : list Column) : M Table :=
  s <- get ;;
  let existing := from_option tbl_columns [] (tables s !! table_name) in
  ret {| tbl_name := table_name;
         tbl_columns := fold_left replace_column columns existing |}.

(** The column a [CREATE TABLE] lays down for a [Column]. *)
Definition db_column (c : Column) : DbColumn :=
  {| dbc_name := c_name c; dbc_type := compile_type (c_type c);
     dbc_primary_key := c_primary_key c; dbc_foreign_key := c_foreign_key c |}.

(** The type names of [compile_type] that PostgreSQL has; [VARBINARY]
    is not one of them. *)
Definition postgresql_types : list string :=
  ["BIGINT"; "BOOLEAN"; "CHAR"; "DATE"; "FLOAT"; "INTEGER"; "BYTEA"; "NUMERIC";
   "SMALLINT"; "VARCHAR"; "TEXT";
   "TIMESTAMP WITH TIME ZONE"; "TIMESTAMP WITHOUT TIME ZONE";
   "TIME WITH TIME ZONE"; "TIME WITHOUT TIME ZONE"].

(** The target of [ForeignKey("table.column")]: the part after the last
    dot names the column, the part before it the table. *)
Fixpoint split_target (target : string) : option (string * string) :=
  match target with
  | EmptyString => None
  | String c rest =>
      match split_target rest with
      | Some (table, column) => Some (String c table, column)
      | None => if Ascii.eqb c "." then Some (EmptyString, rest) else None
      end
  end.

(** Whether a [CREATE TABLE] can lay down the foreign key of a column.
    The [MetaData] has to hold the target table and its column; the
    server wants the target column to be the primary key of the target
    table, be it a live table or the table that is being created. *)
Definition references_resolve (s : State) (table : Table) (c : Column) : bool :=
  match c_foreign_key c with
  | None => true
  | Some target =>
      let '(target_table, target_column) :=
        default (target, c_name c) (split_target target) in
      match tables s !! target_table with
      | None => false
      | Some referenced =>
          bool_decide (target_column ∈ c_name <$> tbl_columns referenced)
          && (if bool_decide (target_table = tbl_name table)
              then bool_decide
                     (c_name <$> List.filter c_primary_key (tbl_columns table)
                      = [target_column])
              else match db s !! target_table with
                   | Some live => bool_decide (pk_columns live = [target_column])
                   | None => false
                   end)
      end
  end.

(** Why the [CREATE TABLE] of a new table is refused, if it is: a
    foreign key does not resolve, or a column type is not a PostgreSQL
    type. *)
Definition create_refusal (s : State) (table : Table) : option exn :=
  if negb (forallb (references_resolve s table) (tbl_columns table))
  then Some (SQLAlchemyError "could not resolve a foreign key")
  else if negb (forallb (λ c, bool_decide (compile_type (c_type c) ∈ postgresql_types))
                  (tbl_columns table))
  then Some (SQLAlchemyError "type does not exist")
  else None.

(** [table.create(conn, checkfirst=True)]: nothing is sent for a table
    that exists. *)
Definition table_create (table : Table) : M unit :=
  outside_world ;;;
  s <- get ;;
  match db s !! tbl_name table with
  | Some _ => ret ()
  | None =>
      match create_refusal s table with
      | Some e => raise e
      | None =>
          modify (set_db (<[tbl_name table :=
                              {| t_columns := db_column <$> tbl_columns table;
                                 t_rows := [] |}]> (db s)))
      end
  end.

(** [insp.get_columns(table_name)], names only *)
Definition get_columns (table_name : string) : M (list string) :=
  outside_world ;;;
  s <- get ;;
  match db s !! table_name with
  | Some t => ret (column_names t)
  | None => raise (NoSuchTableError table_name)
  end.

(** [conn.execute(DDL("ALTER TABLE t ADD COLUMN c type"))]: refused
    for a table the server does not have, a column the table has, or a
    type that is not a PostgreSQL type.  The names go out as the schema
    file spells them, unquoted; a name the server reads differently is
    a failure of the outside world here. *)
Definition alter_table_add_column (table_name column_name type : string) : M unit :=
  outside_world ;;;
  s <- get ;;
  match db s !! table_name with
  | None => raise (SQLAlchemyError "relation does not exist")
  | Some t =>
      if bool_decide (column_name ∈ column_names t)
      then raise (SQLAlchemyError "column already exists")
      else if negb (bool_decide (type ∈ postgresql_types))
      then raise (SQLAlchemyError "type does not exist")
      else
        let added := {| dbc_name := column_name; dbc_type := type;
                        dbc_primary_key := false; dbc_foreign_key := None |} in
        modify (set_db (<[table_name :=
                            {| t_columns := t_columns t ++ [added];
                               t_rows := t_rows t |}]> (db s)))
  end.

(** [conn.execute(stmt)] for [stmt] the insert of [item] into [table]
    with [on_conflict_do_nothing()],
    on a connection without an open transaction: the statement commits
    on its own.  A value the server refuses for the type of its column
    is a failure of the outside world here. *)
Definition execute_insert (table_name : string) (item : Row) : M unit :=
  outside_world ;;;
  s <- get ;;
  match db s !! table_name with
  | None => raise (SQLAlchemyError "relation does not exist")
  | Some t =>
      match insert_row_on_conflict_do_nothing t item with
      | Ok t' => modify (set_db (<[table_name := t']> (db s)))
      | Raise e => raise e
      end
  end.

Fixpoint for_each {A} (l : list A) (body : A → M unit) : M unit :=
  match l with
  | [] => ret ()
  | a :: rest => body a ;;; for_each rest body
  end.

Section WithGlobals.

(** The module namespace the functions run in. *)
Variable globals : list string.

(** Evaluating a global name. *)
Definition global (name : string) : M unit :=
  if bool_decide (name ∈ globals) then ret () else raise (NameError name).

(** [try: body / except exc.SQLAlchemyError as e: handler]: the class
    expression is evaluated when an exception reaches the clause. *)
Definition try_except_exc_SQLAlchemyError {A} (body : M A) (handler : exn → M A) : M A :=
  try_except body Exception
    (λ e, global "exc" ;;; if is_SQLAlchemyError e then handler e else raise e).

(** The body of [for column in columns] (lines 102 to 114). *)
Definition add_if_missing (table_name : string) (existing_columns : list string)
    (column : Column) : M unit :=
  if bool_decide (c_name column ∉ existing_columns) then
    global "DDL" ;;;
    let type := compile_type (c_type column) in
    print ("Adding column: " +:+ c_name column) ;;;
    conn_begin ;;;
    try_except_exc_SQLAlchemyError
      (alter_table_add_column table_name (c_name column) type ;;;
       trans_commit)
      (λ e, print ("Error altering table: " +:+ str_exn e) ;;;
            trans_rollback)
  else print ("Column already exists: " +:+ c_name column).

(** The body of [for schema in schemas] (lines 71 to 114). *)
Definition create_or_update_one (schema : TableSpec) : M unit :=
  let table_name := schema_name schema in
  columns <- mapM build_column (schema_columns schema) ;;
  table <- Table_ table_name columns ;;
  modify (λ s, set_tables (<[table_name := table]> (tables s)) s) ;;;
  with_engine_connect
    (conn_begin ;;;
     try_except_exc_SQLAlchemyError
       (table_create table ;;;
        trans_commit ;;;
        print "trans_commit")
       (λ e, print ("Error creating table: " +:+ str_exn e) ;;;
             trans_rollback)) ;;;
  with_engine_connect
    (global "inspect" ;;;
     existing_columns <- get_columns table_name ;;
     print ("Existing columns in '" +:+ table_name +:+ "': "
            +:+ repr_list existing_columns) ;;;
     for_each columns (add_if_missing table_name existing_columns)).

(** [TableUpdater.create_or_update_table], on the schemas that
    [load_schema] read from the YAML file. *)
Definition create_or_update_table (schemas : list TableSpec) : M unit :=
  for_each schemas create_or_update_one.

End WithGlobals.

(** [{col: item.get(col, None) for col in table_columns}] *)
Definition complete_item (table_columns : list string) (item : Row) : Row :=
  list_to_map ((λ col, (col, cell item col)) <$> table_columns).

(** [TableUpdater.bulk_insert_data] *)
Definition bulk_insert_data (table_name : string) (data : list Row) : M unit :=
  s <- get ;;
  match tables s !! table_name with
  | None =>
      raise (ValueError ("Table '" +:+ table_name
                         +:+ "' not initialized. Call create_or_update_table first."))
  | Some table =>
      let table_columns := c_name <$> tbl_columns table in
      with_engine_connect
        (for_each data (λ item, execute_insert table_name (complete_item table_columns item)))
  end.

End TableUpdate.

(** * Properties of the two programs *)

Import Main TableUpdate.

(** ** Definitions used to state the properties *)

(** [preserves f m]: running [m] leaves the observation [f] of the state
    as it was, whether [m] returns or raises. *)
Definition preserves {A X} (f : State → X) (m : M A) : Prop :=
  ∀ s, f (snd (m s)) = f s.

(** The text [remove_tags] makes of a parsed document. *)
Definition plain_text (soup : list Node) : value :=
  VStr (join " " (flat_map stripped_strings
                    (flat_map (decompose ["style"; "script"]) soup))).

(** What [remove_tags] returns, and what it logs, as functions of its
    argument alone. *)
Definition sanitized (BeautifulSoup : value → Result (list Node)) (html : value) : value :=
  match html with
  | VNone => VStr ""
  | _ => match BeautifulSoup html with
         | Ok soup => plain_text soup
         | Raise _ => html
         end
  end.

Definition sanitize_log (BeautifulSoup : value → Result (list Node)) (html : value)
    : list Event :=
  match html with
  | VNone => []
  | _ => match BeautifulSoup html with
         | Ok _ => []
         | Raise e => [LogError ("Error in remove_tags: " +:+ str_exn e)]
         end
  end.

(** A parser for the examples: a string is one text node; anything else
    is refused, as [BeautifulSoup] refuses an object without a length. *)
Definition text_only_parser (v : value) : Result (list Node) :=
  match v with
  | VStr s => Ok [NavigableString s]
  | _ => Raise (TypeError "object of type 'int' has no len()")
  end.

(** A state with nothing in it. *)
Definition blank : State :=
  {| db := ∅; tx := None; events := []; faults := []; tables := ∅;
     processed_count := 0; error_columns := [] |}.

(** [item] without the keys that are not among [columns]. *)
Definition restrict (columns : list string) (item : Row) : Row :=
  filter (λ kv, kv.1 ∈ columns) item.

(** The message of the [ValueError] that [bulk_insert_data] raises for a
    table it does not know. *)
Definition not_initialized (table_name : string) : exn :=
  ValueError ("Table '" +:+ table_name
              +:+ "' not initialized. Call create_or_update_table first.").

(** An integer column, as [CREATE TABLE] lays it down. *)
Definition int_column (name : string) (primary_key : bool) : DbColumn :=
  {| dbc_name := name; dbc_type := "INTEGER";
     dbc_primary_key := primary_key; dbc_foreign_key := None |}.

Definition text_column (name : string) : DbColumn :=
  {| dbc_name := name; dbc_type := "TEXT";
     dbc_primary_key := false; dbc_foreign_key := None |}.

(** Entries of a schema file. *)
Definition integer_spec (name : string) (primary_key : bool) : ColumnSpec :=
  {| col_name := name; col_type := "Integer"; col_timezone := false;
     col_primary_key := primary_key; col_foreign_key := None |}.

Definition text_spec (name : string) : ColumnSpec :=
  {| col_name := name; col_type := "Text"; col_timezone := false;
     col_primary_key := false; col_foreign_key := None |}.

(** A schema file with one table, [documents(id, title)]. *)
Definition documents_schema : list TableSpec :=
  [{| schema_name := "documents";
      schema_columns := [integer_spec "id" true; text_spec "title"] |}].

(** The updater after it met [documents_schema] on an empty database. *)
Definition documents_state : State :=
  snd (create_or_update_table module_globals documents_schema blank).

(** Two raw documents, the first already processed. *)
Definition two_documents : Database :=
  {[ RAW_DATA_TABLE_NAME :=
       {| t_columns := [int_column "id" false; text_column "content"];
          t_rows := [ {[ "id" := VInt 1; "content" := VStr "<p>one</p>" ]};
                      {[ "id" := VInt 2; "content" := VStr "<p>two</p>" ]} ] |};
     PROCESSED_DATA_TABLE_NAME :=
       {| t_columns := [int_column "id" false; text_column "content"];
          t_rows := [ {[ "id" := VInt 1; "content" := VStr "one" ]} ] |} ]}.

Definition two_documents_state : State :=
  {| db := two_documents; tx := None; events := []; faults := []; tables := ∅;
     processed_count := 0; error_columns := [] |}.

(** [two_documents_state] when the server drops the connection on the
    first statement sent to it. *)
Definition connection_lost : State :=
  set_faults [None; Some (SQLAlchemyError "server closed the connection unexpectedly")]
    two_documents_state.

(** [two_documents_state] once the second document is processed too. *)
Definition all_processed : State :=
  set_db (<[PROCESSED_DATA_TABLE_NAME :=
              {| t_columns := [int_column "id" false; text_column "content"];
                 t_rows := [ {[ "id" := VInt 1; "content" := VStr "one" ]};
                             {[ "id" := VInt 2; "content" := VStr "two" ]} ] |}]> two_documents)
    two_documents_state.

(** The lines by which the loop of [main.py] reports a failure. *)
Definition reports_failure (ev : Event) : bool :=
  match ev with
  | LogError msg =>
      bool_decide (String.prefix "SQLAlchemy error: " msg = true)
      || bool_decide (String.prefix "Unexpected error: " msg = true)
      || bool_decide (String.prefix "Error in main: " msg = true)
  | _ => false
  end.

(** The frame after [df[column] = df[column].apply(remove_tags)], and
    what the call logs. *)
Definition apply_sanitized (BeautifulSoup : value → Result (list Node))
    (df : DataFrame) (column : string) : DataFrame :=
  {| df_columns := df_columns df;
     df_rows := (λ r, <[column := sanitized BeautifulSoup (cell r column)]> r) <$> df_rows df |}.

Definition apply_log (BeautifulSoup : value → Result (list Node))
    (df : DataFrame) (column : string) : list Event :=
  flat_map (λ r, sanitize_log BeautifulSoup (cell r column)) (df_rows df).

(** The frame, the log lines and the recorded names that the loop over
    [columns_to_clean] produces. *)
Fixpoint cleaned (BeautifulSoup : value → Result (list Node))
    (columns : list string) (df : DataFrame) : DataFrame :=
  match columns with
  | [] => df
  | column :: rest =>
      cleaned BeautifulSoup rest
        (if bool_decide (column ∈ df_columns df)
         then apply_sanitized BeautifulSoup df column else df)
  end.

Fixpoint clean_log (BeautifulSoup : value → Result (list Node))
    (columns : list string) (df : DataFrame) : list Event :=
  match columns with
  | [] => []
  | column :: rest =>
      if bool_decide (column ∈ df_columns df)
      then apply_log BeautifulSoup df column
           ++ clean_log BeautifulSoup rest (apply_sanitized BeautifulSoup df column)
      else LogError ("Error processing column " +:+ column +:+ ": "
                     +:+ str_exn (KeyError column))
           :: clean_log BeautifulSoup rest df
  end.

Definition clean_failures (columns : list string) (df : DataFrame) : list string :=
  List.filter (λ column, negb (bool_decide (column ∈ df_columns df))) columns.

(** The line the loop logs when it breaks on an exception. *)
Definition loop_error_line (e : exn) : Event :=
  LogError ((if is_SQLAlchemyError e then "SQLAlchemy error: " else "Unexpected error: ")
            +:+ str_exn e).

(** ** Definitions for the further properties *)

(** The rows of the two tables of the batch job, empty for a table that
    does not exist. *)
Definition raw_rows (d : Database) : list Row :=
  from_option t_rows [] (d !! RAW_DATA_TABLE_NAME).

Definition processed_rows (d : Database) : list Row :=
  from_option t_rows [] (d !! PROCESSED_DATA_TABLE_NAME).

(** The raw rows whose [id] no processed row carries. *)
Definition unprocessed (d : Database) : list Row :=
  List.filter (λ t1, negb (matched (processed_rows d) t1)) (raw_rows d).

(** Every raw row carries an identity key. *)
Definition raw_rows_keyed (d : Database) : Prop :=
  ∀ r, r ∈ raw_rows d → cell r "id" ≠ VNone.

(** The line the loop logs when the selector returns no row. *)
Definition no_new_data : Event := LogInfo "No new data to process.".

(** The database holds nothing for the selector: its query, when the
    server accepts it, returns no row. *)
Definition settled (d : Database) : Prop :=
  ∀ df, run_query d RAW_DATA_TABLE_NAME PROCESSED_DATA_TABLE_NAME 100 = Ok df →
        df_rows df = [].

(** The lines [main.py] logs after the loop. *)
Definition summary_lines (s : State) : list Event :=
  [LogInfo ("Processed rows count: " +:+ pretty (processed_count s))]
  ++ match error_columns s with
     | [] => []
     | cols => [LogInfo ("Rows that failed to process: " +:+ repr_list cols)]
     end
  ++ [LogInfo (dashes +:+ "End of job" +:+ dashes)].

(** The state in which the outer [try] of [main.py] starts. *)
Definition started (s : State) : State :=
  set_error_columns []
    (set_processed_count 0
       (set_events (events s ++ [LogInfo (dashes +:+ "Start of job" +:+ dashes)]) s)).

(** The lines logged for an error that does not stop the loop: they
    start with "Error ". *)
Definition error_line (ev : Event) : Prop :=
  ∃ msg, ev = LogError ("Error " +:+ msg).

(** The state the job leaves after it processed [two_documents]. *)
Definition two_documents_done : State :=
  from_option id blank (main text_only_parser 2 two_documents_state).

(** The configured columns that the raw table does not have. *)
Definition missing_columns (d : Database) : list string :=
  List.filter
    (λ column, negb (bool_decide
                       (column ∈ from_option column_names [] (d !! RAW_DATA_TABLE_NAME))))
    columns_to_clean.

(** The rows the processed table gained between two states. *)
Definition rows_added (s s1 : State) : Z :=
  Z.of_nat (length (processed_rows (db s1))) - Z.of_nat (length (processed_rows (db s))).

(** The table a [CREATE TABLE] for [table] lays down. *)
Definition created_table (table : Table) : SqlTable :=
  {| t_columns := db_column <$> tbl_columns table; t_rows := [] |}.

(** [m] raises, whatever the state it starts from. *)
Definition always_raises {A} (m : M A) : Prop :=
  ∀ s, ∃ e s', m s = (Raise e, s').

(** A column entry of the schema file that [build_column] accepts: its
    type is in [type_mapping], and it asks for a time zone only on a type
    that has one. *)
Definition buildable (col : ColumnSpec) : Prop :=
  col_type col ∈ type_mapping
  ∧ (col_timezone col = true → accepts_timezone (col_type col) = true).


(** The [Column] that [build_column] makes of an entry it accepts. *)
Definition column_of (col : ColumnSpec) : Column :=
  {| c_name := col_name col;
     c_type := {| ty_class := col_type col; ty_timezone := col_timezone col |};
     c_primary_key := match col_foreign_key col with
                      | Some _ => false
                      | None => col_primary_key col
                      end;
     c_foreign_key := col_foreign_key col |}.

(** The [Table] object that the reconciliation of [schema] registers. *)
Definition registered_table (s : State) (schema : TableSpec) : Table :=
  {| tbl_name := schema_name schema;
     tbl_columns :=
       fold_left replace_column (column_of <$> schema_columns schema)
         (from_option tbl_columns [] (tables s !! schema_name schema)) |}.

(** [d'] has every table of [d], with the same rows and with the columns
    of [d] first, unchanged and in order. *)
Definition extends (d d' : Database) : Prop :=
  ∀ name t, d !! name = Some t →
    ∃ t', d' !! name = Some t' ∧ t_rows t' = t_rows t
          ∧ ∃ added, t_columns t' = t_columns t ++ added.

(** The database of a state, and the state an open transaction would
    roll back to, both extend [d]. *)
Definition extending (d : Database) (s : State) : Prop :=
  extends d (db s) ∧ ∀ before, tx s = Some before → extends d before.

(** Running [m] keeps the property [I] of the state, whether [m] returns
    or raises. *)
Definition keeps {A} (I : State → Prop) (m : M A) : Prop :=
  ∀ s, I s → I (snd (m s)).

(** The declared columns of a registered table. *)
Definition declared_columns (table : Table) : list string :=
  c_name <$> tbl_columns table.

(** Between [d] and [d'] the table [name] gained the rows [inserted], at
    the end, and nothing else changed. *)
Definition gained (name : string) (inserted : list Row) (d d' : Database) : Prop :=
  (∀ other, other ≠ name → d' !! other = d !! other)
  ∧ match d !! name with
    | None => d' !! name = None ∧ inserted = []
    | Some t =>
        d' !! name = Some {| t_columns := t_columns t; t_rows := t_rows t ++ inserted |}
    end.

(** No two rows of [t] agree on its primary key. *)
Definition unique_keys (t : SqlTable) : Prop :=
  ∀ i j r r', t_rows t !! i = Some r → t_rows t !! j = Some r' →
              same_key (pk_columns t) r r' = true → i = j.

(** Rows for the [documents] table; the second has no title. *)
Definition avro_rows : list Row :=
  [ {[ "id" := VInt 1; "title" := VStr "Avro" ]}; {[ "id" := VInt 2 ]} ].

(** [documents_state] after [avro_rows] were inserted, and the table
    they were inserted into. *)
Definition documents_filled : State :=
  snd (bulk_insert_data "documents" avro_rows documents_state).

Definition documents_table : SqlTable :=
  from_option id {| t_columns := []; t_rows := [] |} (db documents_filled !! "documents").

(** A schema file whose second column has a type outside the
    vocabulary. *)
Definition misspelt_schema : list TableSpec :=
  [{| schema_name := "documents";
      schema_columns :=
        [integer_spec "id" true;
         {| col_name := "title"; col_type := "Txt"; col_timezone := false;
            col_primary_key := false; col_foreign_key := None |}] |}].

(** No tag with one of the names occurs in the tree. *)
Fixpoint free_of (names : list string) (n : Node) : bool :=
  match n with
  | NavigableString _ | Comment _ => true
  | Tag name contents =>
      negb (bool_decide (name ∈ names)) && forallb (free_of names) contents
  end.

(** Induction on parse trees, with the hypothesis for every child of a
    tag. *)
Fixpoint Node_children_ind (P : Node → Prop)
    (text_case : ∀ text, P (NavigableString text))
    (comment_case : ∀ text, P (Comment text))
    (tag_case : ∀ name contents, Forall P contents → P (Tag name contents))
    (n : Node) : P n :=
  match n with
  | NavigableString text => text_case text
  | Comment text => comment_case text
  | Tag name contents =>
      tag_case name contents
        ((fix children (l : list Node) : Forall P l :=
            match l with
            | [] => @List.Forall_nil _ P
            | c :: l => @List.Forall_cons _ P c l
                          (Node_children_ind P text_case comment_case tag_case c) (children l)
            end) contents)
  end.

(** A page whose text sits partly under [style] and [script] tags. *)
Definition styled_page : list Node :=
  [ Tag "html"
      [ Tag "head" [ Tag "style" [Comment "p { color: red }"] ];
        Tag "body"
          [ Tag "p" [NavigableString "  Hello "; Tag "b" [NavigableString "world"]];
            Comment " navigation ";
            Tag "script" [Comment "alert(1)"];
            NavigableString "   " ] ] ].

Definition styled_page_parser (html : value) : Result (list Node) :=
  match html with
  | VStr _ => Ok styled_page
  | _ => Raise (TypeError "expected string")
  end.

(** Two raw documents, one of them without an identity key, and an empty
    processed table. *)
Definition keyless_document : Row := {[ "id" := VNone; "content" := VStr "lost" ]}.

Definition keyless_document_state : State :=
  set_db
    {[ RAW_DATA_TABLE_NAME :=
         {| t_columns := [int_column "id" false; text_column "content"];
            t_rows := [ {[ "id" := VInt 1; "content" := VStr "one" ]}; keyless_document ] |};
       PROCESSED_DATA_TABLE_NAME :=
         {| t_columns := [int_column "id" false; text_column "content"];
            t_rows := [] |} ]}
    blank.







(** U+00A0 in UTF-8. *)
Definition no_break_space : string :=
  String (ascii_of_nat 194) (String (ascii_of_nat 160) EmptyString).

(** ** Reasoning about [M] *)

Lemma State_eq (s s' : State) :
  db s = db s' → tx s = tx s' → events s = events s' → faults s = faults s' →
  tables s = tables s' → processed_count s = processed_count s' →
  error_columns s = error_columns s' → s = s'.
Proof. destruct s, s'; simpl; intros; subst; reflexivity. Qed.

Section Preserves.
Context {X : Type} (f : State → X).

Lemma preserves_ret {A} (a : A) : preserves f (ret a).
Proof. intros s; reflexivity. Qed.

Lemma preserves_raise {A} (e : exn) : preserves f (@raise A e).
Proof. intros s; reflexivity. Qed.

Lemma preserves_lift {A} (r : Result A) : preserves f (lift r).
Proof. intros s; reflexivity. Qed.

Lemma preserves_get : preserves f get.
Proof. intros s; reflexivity. Qed.

Lemma preserves_modify (g : State → State) :
  (∀ s, f (g s) = f s) → preserves f (modify g).
Proof. intros H s; apply H. Qed.

Lemma preserves_bind {A B} (m : M A) (k : A → M B) :
  preserves f m → (∀ a, preserves f (k a)) → preserves f (bind m k).
Proof.
  intros Hm Hk s. unfold bind. specialize (Hm s).
  destruct (m s) as [[a|e] s1]; simpl in *.
  - rewrite Hk. exact Hm.
  - exact Hm.
Qed.

Lemma preserves_try_except {A} (body : M A) catches (handler : exn → M A) :
  preserves f body → (∀ e, preserves f (handler e)) →
  preserves f (try_except body catches handler).
Proof.
  intros Hb Hh s. unfold try_except. specialize (Hb s).
  destruct (body s) as [[a|e] s1]; simpl in *; [exact Hb|].
  destruct (catches e); simpl; [rewrite Hh|]; exact Hb.
Qed.

Lemma preserves_try_finally {A} (body : M A) (cleanup : M unit) :
  preserves f body → preserves f cleanup → preserves f (try_finally body cleanup).
Proof.
  intros Hb Hc s. unfold try_finally. specialize (Hb s).
  destruct (body s) as [r s1]. specialize (Hc s1).
  destruct (cleanup s1) as [[u|e] s2]; simpl in *; congruence.
Qed.

Lemma preserves_mapM {A B} (g : A → M B) (l : list A) :
  (∀ a, preserves f (g a)) → preserves f (mapM g l).
Proof.
  intros Hg. induction l as [|a l IH]; simpl.
  - apply preserves_ret.
  - apply preserves_bind; [apply Hg|]. intros b.
    apply preserves_bind; [apply IH|]. intros bs. apply preserves_ret.
Qed.

Lemma preserves_for_each {A} (l : list A) (body : A → M unit) :
  (∀ a, preserves f (body a)) → preserves f (for_each l body).
Proof.
  intros Hb. induction l as [|a l IH]; simpl.
  - apply preserves_ret.
  - apply preserves_bind; [apply Hb|]. intros _. apply IH.
Qed.

Lemma preserves_if {A} (b : bool) (m1 m2 : M A) :
  preserves f m1 → preserves f m2 → preserves f (if b then m1 else m2).
Proof. destruct b; auto. Qed.

End Preserves.

Create HintDb frame.
#[global] Hint Resolve preserves_ret preserves_raise preserves_lift preserves_get
  preserves_bind preserves_try_except preserves_try_finally preserves_mapM
  preserves_for_each preserves_if : frame.

(** ** The sanitizer *)

Section Sanitizer.

Variable BeautifulSoup : value → Result (list Node).

Lemma set_events_nil (s : State) : set_events (events s ++ []) s = s.
Proof. apply State_eq; simpl; auto using app_nil_r. Qed.

Lemma remove_tags_run (html : value) (s : State) :
  remove_tags BeautifulSoup html s =
  (Ok (sanitized BeautifulSoup html), set_events (events s ++ sanitize_log BeautifulSoup html) s).
Proof.
  unfold remove_tags, try_except, sanitized, sanitize_log, bind, lift, ret.
  destruct html; simpl; try (rewrite set_events_nil; reflexivity);
    destruct (BeautifulSoup _); simpl; try rewrite set_events_nil; reflexivity.
Qed.

(** C4. [remove_tags] returns on every input and in every state, it never
    raises: on [None] it returns the empty string; on an input the parser
    rejects it returns that input as it came; on every other input it
    returns the plain text of the parsed document. *)
Theorem remove_tags_total (html : value) (s : State) :
  ∃ v, fst (remove_tags BeautifulSoup html s) = Ok v
       ∧ (html = VNone → v = VStr "")
       ∧ (∀ e, html ≠ VNone → BeautifulSoup html = Raise e → v = html)
       ∧ (html ≠ VNone →
          v = html ∨ ∃ soup, BeautifulSoup html = Ok soup ∧ v = plain_text soup).
Proof.
  exists (sanitized BeautifulSoup html). rewrite remove_tags_run. simpl.
  split; [reflexivity|]. unfold sanitized.
  split; [intros ->; reflexivity|].
  split.
  - intros e Hne He. destruct html; [congruence| |]; rewrite He; reflexivity.
  - intros Hne. destruct html; [congruence| |];
      (destruct (BeautifulSoup _) as [soup|e] eqn:E; [right; eauto | left; reflexivity]).
Qed.

End Sanitizer.

Lemma remove_tags_total_witness :
  ∃ v, fst (remove_tags text_only_parser (VInt 7) blank) = Ok v
       ∧ v = VInt 7.
Proof.
  destruct (remove_tags_total text_only_parser (VInt 7) blank)
    as (v & Hv & _ & Hfail & _).
  exists v. split; [exact Hv|].
  apply (Hfail (TypeError "object of type 'int' has no len()")); [discriminate|reflexivity].
Defined.

(** ** Primitives and the parts of the state they leave alone *)

Section Frames.
Context {X : Type} (f : State → X).
Hypothesis f_db : ∀ d s, f (set_db d s) = f s.
Hypothesis f_tx : ∀ t s, f (set_tx t s) = f s.
Hypothesis f_events : ∀ l s, f (set_events l s) = f s.
Hypothesis f_faults : ∀ l s, f (set_faults l s) = f s.

Lemma outside_world_preserves : preserves f outside_world.
Proof.
  intros s. unfold outside_world.
  destruct (faults s) as [|[e|] rest]; simpl; auto.
Qed.

Lemma close_preserves : preserves f close.
Proof.
  intros s. unfold close. destruct (tx s); simpl; [rewrite f_tx, f_db|]; auto.
Qed.

Lemma emit_preserves ev : preserves f (emit ev).
Proof. intros s. apply f_events. Qed.

Lemma with_engine_connect_preserves {A} (body : M A) :
  preserves f body → preserves f (with_engine_connect body).
Proof.
  intros Hb. unfold with_engine_connect.
  apply preserves_bind; [apply outside_world_preserves|]. intros _.
  apply preserves_bind; [apply preserves_modify; intros; apply f_tx|]. intros _.
  apply preserves_try_finally; [exact Hb|apply close_preserves].
Qed.

Lemma conn_begin_preserves : preserves f conn_begin.
Proof.
  unfold conn_begin. apply preserves_bind; [apply emit_preserves|]. intros _.
  apply preserves_modify. intros; apply f_tx.
Qed.

Lemma trans_commit_preserves : preserves f trans_commit.
Proof.
  unfold trans_commit. apply preserves_bind; [apply outside_world_preserves|]. intros _.
  apply preserves_bind; [apply emit_preserves|]. intros _.
  apply preserves_modify. intros; apply f_tx.
Qed.

Lemma trans_rollback_preserves : preserves f trans_rollback.
Proof.
  unfold trans_rollback. apply preserves_bind; [apply emit_preserves|]. intros _.
  apply preserves_modify. intros s. destruct (tx s); [rewrite f_tx, f_db|]; auto.
Qed.

Lemma table_create_preserves table : preserves f (table_create table).
Proof.
  unfold table_create. apply preserves_bind; [apply outside_world_preserves|]. intros _.
  apply preserves_bind; [apply preserves_get|]. intros s.
  destruct (db s !! _); [apply preserves_ret|].
  destruct (create_refusal s table); [apply preserves_raise|].
  apply preserves_modify. intros; apply f_db.
Qed.

Lemma get_columns_preserves name : preserves f (get_columns name).
Proof.
  unfold get_columns. apply preserves_bind; [apply outside_world_preserves|]. intros _.
  apply preserves_bind; [apply preserves_get|]. intros s.
  destruct (db s !! name); auto with frame.
Qed.

Lemma alter_table_add_column_preserves t c ty :
  preserves f (alter_table_add_column t c ty).
Proof.
  unfold alter_table_add_column.
  apply preserves_bind; [apply outside_world_preserves|]. intros _.
  apply preserves_bind; [apply preserves_get|]. intros s.
  destruct (db s !! t); [|auto with frame].
  destruct (bool_decide _); [auto with frame|].
  destruct (negb _); [auto with frame|].
  apply preserves_modify. intros; apply f_db.
Qed.

Lemma execute_insert_preserves t item : preserves f (execute_insert t item).
Proof.
  unfold execute_insert.
  apply preserves_bind; [apply outside_world_preserves|]. intros _.
  apply preserves_bind; [apply preserves_get|]. intros s.
  destruct (db s !! t); [|auto with frame].
  destruct (insert_row_on_conflict_do_nothing _ _); [|auto with frame].
  apply preserves_modify. intros; apply f_db.
Qed.

Lemma global_preserves globals name : preserves f (global globals name).
Proof. unfold global. destruct (bool_decide _); auto with frame. Qed.

Lemma build_column_preserves col : preserves f (build_column col).
Proof.
  unfold build_column. destruct (bool_decide _); [|auto with frame].
  apply preserves_bind.
  - destruct (col_timezone col); [destruct (accepts_timezone _)|]; auto with frame.
  - intros ty. destruct (col_foreign_key col); auto with frame.
Qed.

Lemma Table_preserves name columns : preserves f (Table_ name columns).
Proof. unfold Table_. auto with frame. Qed.

Lemma try_except_exc_preserves {A} globals (body : M A) handler :
  preserves f body → (∀ e, preserves f (handler e)) →
  preserves f (try_except_exc_SQLAlchemyError globals body handler).
Proof.
  intros Hb Hh. unfold try_except_exc_SQLAlchemyError.
  apply preserves_try_except; [exact Hb|]. intros e.
  apply preserves_bind; [apply global_preserves|]. intros _.
  destruct (is_SQLAlchemyError e); auto with frame.
Qed.

Lemma add_if_missing_preserves globals name existing column :
  preserves f (add_if_missing globals name existing column).
Proof.
  unfold add_if_missing, print. destruct (bool_decide _); [|apply emit_preserves].
  apply preserves_bind; [apply global_preserves|]. intros _.
  apply preserves_bind; [apply emit_preserves|]. intros _.
  apply preserves_bind; [apply conn_begin_preserves|]. intros _.
  apply try_except_exc_preserves.
  - apply preserves_bind; [apply alter_table_add_column_preserves|]. intros _.
    apply trans_commit_preserves.
  - intros e. apply preserves_bind; [apply emit_preserves|]. intros _.
    apply trans_rollback_preserves.
Qed.

(** Of the state outside the database, the log and the failure script,
    one table's reconciliation changes only [self.tables]. *)
Lemma create_or_update_one_preserves globals schema :
  (∀ t s, f (set_tables (<[schema_name schema := t]> (tables s)) s) = f s) →
  preserves f (create_or_update_one globals schema).
Proof.
  intros f_tables. unfold create_or_update_one, print.
  apply preserves_bind; [apply preserves_mapM, build_column_preserves|]. intros columns.
  apply preserves_bind; [apply Table_preserves|]. intros table.
  apply preserves_bind; [apply preserves_modify; intros; apply f_tables|]. intros _.
  apply preserves_bind.
  - apply with_engine_connect_preserves.
    apply preserves_bind; [apply conn_begin_preserves|]. intros _.
    apply try_except_exc_preserves.
    + apply preserves_bind; [apply table_create_preserves|]. intros _.
      apply preserves_bind; [apply trans_commit_preserves|]. intros _.
      apply emit_preserves.
    + intros e. apply preserves_bind; [apply emit_preserves|]. intros _.
      apply trans_rollback_preserves.
  - intros _. apply with_engine_connect_preserves.
    apply preserves_bind; [apply global_preserves|]. intros _.
    apply preserves_bind; [apply get_columns_preserves|]. intros existing.
    apply preserves_bind; [apply emit_preserves|]. intros _.
    apply preserves_for_each. intros c. apply add_if_missing_preserves.
Qed.

End Frames.

(** ** The bulk inserter *)

(** A table name that no schema carried is not in [self.tables] after
    [create_or_update_table], however the call ended. *)
Lemma create_or_update_table_registers_schema_names
    globals (schemas : list TableSpec) (name : string) :
  name ∉ schema_name <$> schemas →
  preserves (λ s, tables s !! name) (create_or_update_table globals schemas).
Proof.
  intros Hname. unfold create_or_update_table.
  induction schemas as [|schema rest IH]; simpl.
  - apply preserves_ret.
  - rewrite fmap_cons, not_elem_of_cons in Hname. destruct Hname as [Hne Hrest].
    apply preserves_bind; [|intros _; apply IH, Hrest].
    apply create_or_update_one_preserves; try reflexivity.
    intros t s. simpl. apply lookup_insert_ne. congruence.
Qed.

(** C9. [bulk_insert_data] on a table name that is not in [self.tables]
    raises the [ValueError] "Table ... not initialized" (the spec's
    NotInitializedError) and leaves the whole state, the database
    included, as it was: nothing is sent to the server.  A name is in
    that situation whenever the updater started without it and no schema
    given to [create_or_update_table] carried it. *)
Theorem bulk_insert_data_unregistered (s : State) (table_name : string) (data : list Row) :
  tables s !! table_name = None →
  bulk_insert_data table_name data s = (Raise (not_initialized table_name), s)
  ∧ ∀ globals schemas,
      table_name ∉ schema_name <$> schemas →
      let s' := snd (create_or_update_table globals schemas s) in
      bulk_insert_data table_name data s' = (Raise (not_initialized table_name), s').
Proof.
  assert (Hdirect : ∀ s0, tables s0 !! table_name = None →
            bulk_insert_data table_name data s0 = (Raise (not_initialized table_name), s0)).
  { intros s0 H0. unfold bulk_insert_data, bind, get. rewrite H0. reflexivity. }
  intros Hs. split; [apply Hdirect, Hs|].
  intros globals schemas Hname s'. apply Hdirect. subst s'.
  rewrite (create_or_update_table_registers_schema_names globals schemas table_name Hname s).
  exact Hs.
Qed.

Lemma bulk_insert_data_unregistered_witness :
  bulk_insert_data "authors" [{[ "id" := VInt 1 ]}] documents_state
  = (Raise (not_initialized "authors"), documents_state).
Proof.
  apply (proj2 (bulk_insert_data_unregistered blank "authors" [{[ "id" := VInt 1 ]}]
                  ltac:(reflexivity)) module_globals documents_schema).
  intros H. apply list_elem_of_In in H. simpl in H. destruct H as [H|[]]. discriminate H.
Defined.


Lemma complete_item_lookup (columns : list string) (item : Row) (c : string) :
  complete_item columns item !! c
  = if decide (c ∈ columns) then Some (cell item c) else None.
Proof.
  unfold complete_item. induction columns as [|c' columns IH].
  - rewrite fmap_nil, list_to_map_nil, lookup_empty.
    rewrite decide_False; [reflexivity|]. intros H; inversion H.
  - rewrite fmap_cons, list_to_map_cons.
    destruct (decide (c' = c)) as [->|Hne].
    + rewrite lookup_insert_eq. rewrite decide_True by left. reflexivity.
    + rewrite lookup_insert_ne by exact Hne. rewrite IH.
      destruct (decide (c ∈ columns)) as [Hin|Hout].
      * rewrite decide_True by (right; exact Hin). reflexivity.
      * rewrite decide_False; [reflexivity|].
        intros [?|?]%elem_of_cons; [congruence|contradiction].
Qed.

Lemma dom_complete_item (columns : list string) (item : Row) :
  dom (complete_item columns item) = list_to_set columns.
Proof.
  apply set_eq. intros c. rewrite elem_of_dom, elem_of_list_to_set, complete_item_lookup.
  destruct (decide (c ∈ columns)) as [Hin|Hout]; split; intros H.
  - exact Hin.
  - exists (cell item c). reflexivity.
  - destruct H as [v Hv]. discriminate Hv.
  - contradiction.
Qed.

Lemma cell_restrict (columns : list string) (item : Row) (c : string) :
  c ∈ columns → cell (restrict columns item) c = cell item c.
Proof.
  intros Hc. unfold cell, restrict.
  destruct (item !! c) as [v|] eqn:E.
  - erewrite (proj2 (map_lookup_filter_Some _ item c v)); [reflexivity|]. split; assumption.
  - rewrite (proj2 (map_lookup_filter_None _ item c)); [reflexivity|]. left. exact E.
Qed.

Lemma complete_item_restrict (columns : list string) (item : Row) :
  complete_item columns (restrict columns item) = complete_item columns item.
Proof.
  apply map_eq. intros c. rewrite !complete_item_lookup.
  destruct (decide (c ∈ columns)); [|reflexivity].
  rewrite cell_restrict by assumption. reflexivity.
Qed.

Lemma for_each_fmap {A B} (g : A → B) (l : list A) (body : B → M unit) :
  for_each (g <$> l) body = for_each l (λ a, body (g a)).
Proof.
  induction l as [|a l IH]; [reflexivity|].
  rewrite fmap_cons. cbn [for_each]. rewrite IH. reflexivity.
Qed.

Lemma for_each_ext {A} (l : list A) (body body' : A → M unit) :
  (∀ a, body a = body' a) → for_each l body = for_each l body'.
Proof. intros H. induction l as [|a l IH]; simpl; [|rewrite H, IH]; reflexivity. Qed.

(** C10. The mapping [bulk_insert_data] inserts for a row has exactly the
    declared columns of the table as its keys, and the call does the same
    (same result, same final state) on the rows as given and on the rows
    stripped of every key that is not a declared column: such keys are
    neither inserted nor reported. *)
Theorem bulk_insert_data_drops_undeclared_keys
    (s : State) (table_name : string) (table : Table) (data : list Row) :
  tables s !! table_name = Some table →
  let table_columns := c_name <$> tbl_columns table in
  (∀ item, dom (complete_item table_columns item) = list_to_set table_columns)
  ∧ bulk_insert_data table_name data s
    = bulk_insert_data table_name (restrict table_columns <$> data) s.
Proof.
  intros Htable table_columns. split; [intros item; apply dom_complete_item|].
  unfold bulk_insert_data, bind, get. rewrite Htable. fold table_columns.
  rewrite for_each_fmap.
  erewrite (for_each_ext data); [reflexivity|].
  intros item. simpl. rewrite complete_item_restrict. reflexivity.
Qed.

Lemma bulk_insert_data_drops_undeclared_keys_witness :
  bulk_insert_data "documents"
    [{[ "id" := VInt 1; "title" := VStr "Avro"; "shelf" := VStr "B2" ]}] documents_state
  = bulk_insert_data "documents"
      [{[ "id" := VInt 1; "title" := VStr "Avro" ]}] documents_state.
Proof.
  etransitivity;
    [apply (bulk_insert_data_drops_undeclared_keys documents_state "documents"
              {| tbl_name := "documents";
                 tbl_columns :=
                   [ {| c_name := "id"; c_type := {| ty_class := "Integer"; ty_timezone := false |};
                        c_primary_key := true; c_foreign_key := None |};
                     {| c_name := "title"; c_type := {| ty_class := "Text"; ty_timezone := false |};
                        c_primary_key := false; c_foreign_key := None |} ] |});
     vm_compute; reflexivity|].
  vm_compute. reflexivity.
Defined.

(** ** The selector *)

Lemma insert_rows_ok (rows : list Row) : ∀ t t',
  insert_rows t rows = Ok t' →
  t_rows t' = t_rows t ++ rows ∧ t_columns t' = t_columns t.
Proof.
  induction rows as [|r rows IH]; simpl; intros t t' H.
  - injection H as <-. rewrite app_nil_r. auto.
  - unfold insert_row in H. destruct (insertable t r); [|discriminate].
    destruct (conflicts t r); [discriminate|].
    apply IH in H as [Hrows Hcols]. simpl in *.
    rewrite Hrows, <- app_assoc. auto.
Qed.

(** A successful [to_sql] leaves the rows of the frame in the table. *)
Lemma to_sql_ok (df : DataFrame) (name : string) (s s' : State) :
  to_sql df name s = (Ok (), s') →
  ∃ t', db s' !! name = Some t'
        ∧ t_rows t' = from_option t_rows [] (db s !! name) ++ df_rows df
        ∧ (∀ other, other ≠ name → db s' !! other = db s !! other)
        ∧ events s' = events s ∧ error_columns s' = error_columns s
        ∧ processed_count s' = processed_count s ∧ tables s' = tables s
        ∧ (faults s = [] → faults s' = []).
Proof.
  unfold to_sql, bind, outside_world, get, modify, raise.
  destruct (faults s) as [|[e|] rest] eqn:Ef; simpl; [|discriminate|];
    (destruct (db s !! name) as [t|] eqn:Et; simpl;
     [ destruct (bool_decide _); [|discriminate];
       destruct (insert_rows t (df_rows df)) as [t'|] eqn:Ei; [|discriminate];
       intros [= <-]; apply insert_rows_ok in Ei as [Hrows _];
       exists t'; simpl; rewrite lookup_insert_eq;
       repeat split; auto; try (intros; apply lookup_insert_ne; congruence); discriminate
     | intros [= <-]; eexists; simpl; rewrite lookup_insert_eq;
       repeat split; auto; try (intros; apply lookup_insert_ne; congruence); discriminate ]).
Qed.

Lemma matched_spec (processed : list Row) (t1 : Row) :
  matched processed t1 = true
  ↔ ∃ t2, t2 ∈ processed ∧ sql_eq (cell t1 "id") (cell t2 "id") = true.
Proof.
  unfold matched. rewrite existsb_exists. setoid_rewrite list_elem_of_In. reflexivity.
Qed.

Lemma sql_eq_refl (v : value) : v ≠ VNone → sql_eq v v = true.
Proof. destruct v; [congruence| |]; intros _; simpl; apply bool_decide_eq_true; reflexivity. Qed.

Lemma not_exists_query_elem (raw processed : list Row) (limit : nat) (row : Row) :
  row ∈ not_exists_query raw processed limit →
  row ∈ raw ∧ ∀ p, p ∈ processed → sql_eq (cell row "id") (cell p "id") = false.
Proof.
  unfold not_exists_query. intros H.
  apply elem_of_take in H as (i & H & _). apply list_elem_of_lookup_2 in H.
  apply list_elem_of_In, filter_In in H as [Hin Hm]. split; [apply list_elem_of_In, Hin|].
  intros p Hp. apply negb_true_iff in Hm.
  destruct (sql_eq _ _) eqn:E; [|reflexivity].
  assert (matched processed row = true) by (apply matched_spec; eauto). congruence.
Qed.

Lemma not_exists_query_length (raw processed : list Row) (limit : nat) :
  (length (not_exists_query raw processed limit) ≤ limit)%nat.
Proof. unfold not_exists_query. rewrite length_take. lia. Qed.

(** The two ways [download_table_to_df] ends: with the answer of the
    server, or, after any failure, with an empty frame and one line in
    the log.  It always returns, and it leaves everything but the log and
    the failure script as it was. *)
Lemma download_table_to_df_run raw_name proc_name limit (s : State) :
  ∃ df s',
    download_table_to_df raw_name proc_name limit s = (Ok df, s')
    ∧ db s' = db s ∧ tables s' = tables s
    ∧ processed_count s' = processed_count s ∧ error_columns s' = error_columns s
    ∧ ((run_query (db s) raw_name proc_name limit = Ok df ∧ events s' = events s)
       ∨ (df = empty_DataFrame
          ∧ ∃ e, events s' = events s
                              ++ [LogError ("Error in download_table_to_df: " +:+ str_exn e)]))
    ∧ (faults s = [] → faults s' = []
       ∧ ∀ df0, run_query (db s) raw_name proc_name limit = Ok df0 → df = df0).
Proof.
  unfold download_table_to_df, try_except, with_engine_connect, read_sql, try_finally,
    bind, outside_world, modify, get, lift, close, logging_error, emit, ret, Exception.
  destruct (faults s) as [|[e|] [|[e'|] rest]] eqn:Ef; simpl;
    try rewrite Ef; simpl;
    try (destruct (run_query (db s) raw_name proc_name limit) as [df|e0] eqn:Eq; simpl);
    do 2 eexists; (split; [reflexivity|]); simpl;
    repeat split; eauto; try discriminate; try congruence.
Qed.

(** C1, as the code has it. For a positive limit, [download_table_to_df]
    returns a frame and leaves the database as it was; the frame has at
    most [limit] rows; each of them is a row of the raw table whose [id]
    equals the [id] of no row of the processed table.  Once [to_sql] has
    written a frame to the processed table, the next call returns no row
    that carries the [id] of a written row, when that [id] is not NULL. *)
Theorem download_table_to_df_set_difference
    (raw_name proc_name : string) (limit : Z) (s : State) :
  0 < limit →
  ∃ df s',
    download_table_to_df raw_name proc_name limit s = (Ok df, s')
    ∧ db s' = db s
    ∧ Z.of_nat (length (df_rows df)) ≤ limit
    ∧ (∀ row, row ∈ df_rows df →
         ∃ R P, db s !! raw_name = Some R ∧ db s !! proc_name = Some P
                ∧ row ∈ t_rows R
                ∧ ∀ p, p ∈ t_rows P → sql_eq (cell row "id") (cell p "id") = false)
    ∧ (∀ written s0 w b,
         to_sql written proc_name s0 = (Ok (), s) →
         w ∈ df_rows written → cell b "id" = cell w "id" → cell b "id" ≠ VNone →
         b ∉ df_rows df).
Proof.
  intros Hlimit.
  destruct (download_table_to_df_run raw_name proc_name limit s)
    as (df & s' & Hrun & Hdb & _ & _ & _ & Hcases & _).
  exists df, s'. split; [exact Hrun|]. split; [exact Hdb|].
  assert (Hrows : ∀ row, row ∈ df_rows df →
            ∃ R P, db s !! raw_name = Some R ∧ db s !! proc_name = Some P
                   ∧ row ∈ not_exists_query (t_rows R) (t_rows P) (Z.to_nat limit)
                   ∧ df_rows df = not_exists_query (t_rows R) (t_rows P) (Z.to_nat limit)).
  { intros row Hrow. destruct Hcases as [[Hq _]|[-> _]]; [|inversion Hrow].
    unfold run_query in Hq.
    destruct (db s !! raw_name) as [R|]; [|discriminate].
    destruct (db s !! proc_name) as [P|]; [|discriminate].
    destruct (_ && _); [|discriminate]. injection Hq as <-. simpl in *. eauto 6. }
  split; [|split].
  - destruct (df_rows df) as [|row rows] eqn:E; [simpl; lia|].
    destruct (Hrows row) as (R & P & _ & _ & _ & Heq); [left|].
    rewrite Heq. pose proof (not_exists_query_length (t_rows R) (t_rows P) (Z.to_nat limit)).
    lia.
  - intros row Hrow. destruct (Hrows row Hrow) as (R & P & HR & HP & Hin & _).
    exists R, P. apply not_exists_query_elem in Hin as [? ?]. auto.
  - intros written s0 w b Hwrite Hw Hid Hkey Hb.
    destruct (Hrows b Hb) as (R & P & _ & HP & Hin & _).
    apply not_exists_query_elem in Hin as [_ Hnone].
    apply to_sql_ok in Hwrite as (t' & Ht' & Hrows' & _).
    rewrite HP in Ht'. injection Ht' as <-.
    specialize (Hnone w). rewrite Hid in Hnone.
    rewrite sql_eq_refl in Hnone by congruence.
    enough (false = true) by discriminate. symmetry. apply Hnone.
    rewrite Hrows'. apply elem_of_app. right. exact Hw.
Qed.

Lemma download_table_to_df_set_difference_witness :
  ∃ df s',
    download_table_to_df RAW_DATA_TABLE_NAME PROCESSED_DATA_TABLE_NAME 100
      two_documents_state = (Ok df, s')
    ∧ Z.of_nat (length (df_rows df)) ≤ 100
    ∧ ({[ "id" := VInt 1; "content" := VStr "<p>one</p>" ]} : Row) ∉ df_rows df.
Proof.
  destruct (download_table_to_df_set_difference
              RAW_DATA_TABLE_NAME PROCESSED_DATA_TABLE_NAME 100 two_documents_state
              ltac:(lia))
    as (df & s' & Hrun & _ & Hlen & _ & Hwritten).
  exists df, s'. split; [exact Hrun|]. split; [exact Hlen|].
  apply (Hwritten
           {| df_columns := ["id"; "content"];
              df_rows := [ {[ "id" := VInt 1; "content" := VStr "one" ]} ] |}
           (set_db (<[PROCESSED_DATA_TABLE_NAME :=
                        {| t_columns := [int_column "id" false; text_column "content"];
                           t_rows := [] |}]> two_documents) two_documents_state)
           {[ "id" := VInt 1; "content" := VStr "one" ]}).
  - vm_compute. reflexivity.
  - left.
  - vm_compute. reflexivity.
  - vm_compute. discriminate.
Defined.

(** C1 as the claim has it fails for a row whose [id] is NULL: the batch
    selected from [keyless_document_state] holds the document without a
    key; once [to_sql] has written that batch to the processed table, the
    next call returns the document again, since [t1.id = t2.id] is not
    true of a NULL. *)
Lemma written_keyless_row_selected_again :
  ∃ batch s1 s2 next s3,
    download_table_to_df RAW_DATA_TABLE_NAME PROCESSED_DATA_TABLE_NAME 100
      keyless_document_state = (Ok batch, s1)
    ∧ to_sql batch PROCESSED_DATA_TABLE_NAME s1 = (Ok (), s2)
    ∧ download_table_to_df RAW_DATA_TABLE_NAME PROCESSED_DATA_TABLE_NAME 100 s2
      = (Ok next, s3)
    ∧ keyless_document ∈ df_rows batch
    ∧ keyless_document ∈ df_rows next
    ∧ length (df_rows batch) = 2%nat ∧ length (df_rows next) = 1%nat.
Proof.
  do 5 eexists.
  split; [vm_compute; reflexivity|].
  split; [vm_compute; reflexivity|].
  split; [vm_compute; reflexivity|].
  split; [right; left|]. split; [left|]. split; reflexivity.
Qed.


(** ** The cleaning of a batch *)

Section Cleaning.

Variable BeautifulSoup : value → Result (list Node).

Lemma mapM_remove_tags (column : string) (rows : list Row) (s : State) :
  mapM (λ r, remove_tags BeautifulSoup (cell r column)) rows s
  = (Ok ((λ r, sanitized BeautifulSoup (cell r column)) <$> rows),
     set_events (events s ++ flat_map (λ r, sanitize_log BeautifulSoup (cell r column)) rows) s).
Proof.
  revert s. induction rows as [|r rows IH]; intros s; simpl.
  - unfold ret. rewrite set_events_nil. reflexivity.
  - unfold bind at 1. rewrite remove_tags_run. unfold bind at 1. rewrite IH.
    unfold ret. f_equal. apply State_eq; simpl; auto.
    rewrite <- app_assoc. reflexivity.
Qed.

Lemma zip_with_fmap_r {A B C} (g : A → B → C) (h : A → B) (l : list A) :
  zip_with g l (h <$> l) = (λ a, g a (h a)) <$> l.
Proof.
  induction l as [|a l IH]; [reflexivity|].
  rewrite !fmap_cons. cbn [zip_with]. rewrite IH. reflexivity.
Qed.

Lemma df_apply_run (df : DataFrame) (column : string) (s : State) :
  df_apply df column (remove_tags BeautifulSoup) s
  = if bool_decide (column ∈ df_columns df)
    then (Ok (apply_sanitized BeautifulSoup df column),
          set_events (events s ++ apply_log BeautifulSoup df column) s)
    else (Raise (KeyError column), s).
Proof.
  unfold df_apply. destruct (bool_decide _); [|reflexivity].
  unfold bind. rewrite mapM_remove_tags. unfold ret, apply_sanitized.
  rewrite zip_with_fmap_r. reflexivity.
Qed.

Lemma clean_failures_columns (columns : list string) (df df' : DataFrame) :
  df_columns df' = df_columns df → clean_failures columns df' = clean_failures columns df.
Proof. unfold clean_failures. intros ->. reflexivity. Qed.

Lemma clean_columns_run (columns : list string) : ∀ (df : DataFrame) (s : State),
  clean_columns BeautifulSoup columns df s
  = (Ok (cleaned BeautifulSoup columns df),
     set_error_columns (error_columns s ++ clean_failures columns df)
       (set_events (events s ++ clean_log BeautifulSoup columns df) s)).
Proof.
  induction columns as [|column rest IH]; intros df s; simpl.
  - unfold ret. f_equal. apply State_eq; simpl; auto using app_nil_r.
  - unfold bind at 1, try_except. rewrite df_apply_run.
    unfold clean_failures. simpl.
    destruct (bool_decide (column ∈ df_columns df)) eqn:E; simpl.
    + rewrite IH. f_equal. apply State_eq; simpl; auto.
      rewrite <- app_assoc. reflexivity.
    + rewrite IH. f_equal. apply State_eq; simpl; auto.
      * rewrite <- app_assoc. reflexivity.
      * rewrite <- app_assoc. reflexivity.
Qed.

Lemma cleaned_columns (columns : list string) : ∀ df,
  df_columns (cleaned BeautifulSoup columns df) = df_columns df.
Proof.
  induction columns as [|c rest IH]; intros df; simpl; [reflexivity|].
  rewrite IH. destruct (bool_decide _); reflexivity.
Qed.

(** Row by row: a cleaned row differs from the fetched one only at the
    cleaned columns the frame has, where it holds the sanitized cell. *)
Lemma elem_of_cons_bool (c column : string) (rest : list string) :
  bool_decide (c ∈ column :: rest) = bool_decide (c = column) || bool_decide (c ∈ rest).
Proof.
  apply eq_true_iff_eq. rewrite orb_true_iff, !bool_decide_eq_true. apply elem_of_cons.
Qed.

Lemma cleaned_rows (columns : list string) : ∀ df,
  NoDup columns →
  ∃ g : Row → Row,
    df_rows (cleaned BeautifulSoup columns df) = g <$> df_rows df
    ∧ ∀ r c,
        g r !! c
        = if bool_decide (c ∈ columns) && bool_decide (c ∈ df_columns df)
          then Some (sanitized BeautifulSoup (cell r c)) else r !! c.
Proof.
  induction columns as [|column rest IH]; intros df Hnd.
  - exists id. split; [rewrite list_fmap_id; reflexivity|]. intros r c.
    rewrite (bool_decide_eq_false_2 (c ∈ [])) by (intros H; inversion H). reflexivity.
  - apply NoDup_cons in Hnd as [Hfresh Hnd]. cbn [cleaned].
    destruct (bool_decide (column ∈ df_columns df)) eqn:E.
    + destruct (IH (apply_sanitized BeautifulSoup df column) Hnd) as (g & Hg & Hlook).
      exists (λ r, g (<[column := sanitized BeautifulSoup (cell r column)]> r)).
      split.
      { rewrite Hg. unfold apply_sanitized. cbn [df_rows].
        rewrite <- list_fmap_compose. reflexivity. }
      intros r c. rewrite Hlook, elem_of_cons_bool. cbn [apply_sanitized df_columns].
      destruct (decide (c = column)) as [->|Hne].
      * rewrite (bool_decide_eq_false_2 (column ∈ rest)) by exact Hfresh.
        rewrite (bool_decide_eq_true_2 (column = column)) by reflexivity.
        rewrite E. cbn [andb orb]. apply lookup_insert_eq.
      * rewrite (bool_decide_eq_false_2 (c = column)) by exact Hne. cbn [orb].
        unfold cell. rewrite lookup_insert_ne by congruence. reflexivity.
    + destruct (IH df Hnd) as (g & Hg & Hlook).
      exists g. split; [exact Hg|]. intros r c. rewrite Hlook, elem_of_cons_bool.
      destruct (decide (c = column)) as [->|Hne].
      * rewrite (bool_decide_eq_false_2 (column ∈ rest)) by exact Hfresh.
        rewrite E, !andb_false_r. reflexivity.
      * rewrite (bool_decide_eq_false_2 (c = column)) by exact Hne. reflexivity.
Qed.

End Cleaning.
Section Loop.
Variable BeautifulSoup : value → Result (list Node).

(** One turn of the loop, spelt out: what it returns and the state it
    leaves, from the frame the selector returned. *)
Lemma loop_body_run (s s1 : State) (df : DataFrame) :
  download_table_to_df RAW_DATA_TABLE_NAME PROCESSED_DATA_TABLE_NAME 100 s = (Ok df, s1) →
  let counted := set_processed_count (processed_count s1 + df_len df) s1 in
  loop_body BeautifulSoup s =
    if df_empty df then
      (Ok Break, set_events (events counted ++ [LogInfo "No new data to process."]) counted)
    else
      match to_sql (cleaned BeautifulSoup columns_to_clean df) PROCESSED_DATA_TABLE_NAME
              (set_error_columns (error_columns counted ++ clean_failures columns_to_clean df)
                 (set_events (events counted
                              ++ clean_log BeautifulSoup columns_to_clean df) counted)) with
      | (Ok _, s3) =>
          (Ok Continue,
           set_events (events s3
                       ++ [LogInfo "Data processing and insertion completed successfully."]) s3)
      | (Raise e, s3) =>
          (Ok Break, set_events (events s3 ++ [loop_error_line e]) s3)
      end.
Proof.
  intros Hdl counted. unfold loop_body, try_except, bind. rewrite Hdl.
  cbv beta iota. unfold modify at 1. cbv beta iota. fold counted.
  destruct (df_empty df).
  - reflexivity.
  - rewrite clean_columns_run.
    destruct (to_sql _ _ _) as [[[]|e] s3]; cbv beta iota.
    + reflexivity.
    + unfold loop_error_line, Exception.
      destruct (is_SQLAlchemyError e); reflexivity.
Qed.
End Loop.

(** ** The batch loop and a failing selector *)

(** C5, as the code has it. When the query of [download_table_to_df]
    fails, for whatever reason, the function logs the error and returns
    the empty frame [pd.DataFrame()]; the loop then does what it does when
    no document is left: it adds nothing to the count, logs "No new data
    to process.", and breaks, the database untouched.  The failure is in
    the log only. *)
Theorem selector_failure_ends_loop_as_completion
    BeautifulSoup (s s1 : State) (e : exn) :
  with_engine_connect (read_sql RAW_DATA_TABLE_NAME PROCESSED_DATA_TABLE_NAME 100) s
    = (Raise e, s1) →
  let failure := LogError ("Error in download_table_to_df: " +:+ str_exn e) in
  (∃ s', download_table_to_df RAW_DATA_TABLE_NAME PROCESSED_DATA_TABLE_NAME 100 s
         = (Ok empty_DataFrame, s')
         ∧ events s' = events s ++ [failure])
  ∧ ∃ s2, loop_body BeautifulSoup s = (Ok Break, s2)
          ∧ events s2 = events s ++ [failure; LogInfo "No new data to process."]
          ∧ db s2 = db s
          ∧ processed_count s2 = processed_count s.
Proof.
  intros Hq failure.
  assert (Hs1 : events s1 = events s ∧ db s1 = db s ∧ processed_count s1 = processed_count s).
  { revert Hq.
    unfold with_engine_connect, read_sql, try_finally, bind, outside_world, modify, get,
      lift, close.
    destruct (faults s) as [|[e1|] [|[e2|] rest]] eqn:Ef; simpl; try rewrite Ef; simpl;
      try (destruct (run_query (db s) _ _ _)); simpl; intros [= <- <-] || intros [=];
      simpl; auto. }
  destruct Hs1 as (Hev & Hdb & Hpc).
  assert (Hdl : download_table_to_df RAW_DATA_TABLE_NAME PROCESSED_DATA_TABLE_NAME 100 s
                = (Ok empty_DataFrame, set_events (events s1 ++ [failure]) s1)).
  { unfold download_table_to_df, try_except. rewrite Hq. reflexivity. }
  split.
  - eexists. split; [exact Hdl|]. simpl. rewrite Hev. reflexivity.
  - rewrite (loop_body_run BeautifulSoup _ _ _ Hdl). cbn [df_empty empty_DataFrame df_columns].
    eexists. split; [reflexivity|]. simpl. rewrite Hev, Hdb, Hpc, <- app_assoc.
    repeat split; auto. unfold df_len. simpl. lia.
Qed.

Lemma selector_failure_ends_loop_as_completion_witness :
  ∃ s2, loop_body text_only_parser connection_lost = (Ok Break, s2)
        ∧ events s2
          = [LogError "Error in download_table_to_df: server closed the connection unexpectedly";
             LogInfo "No new data to process."]
        ∧ db s2 = two_documents.
Proof.
  destruct (selector_failure_ends_loop_as_completion text_only_parser connection_lost
              (set_tx None (set_faults [] two_documents_state))
              (SQLAlchemyError "server closed the connection unexpectedly")
              ltac:(vm_compute; reflexivity))
    as (_ & s2 & Hrun & Hev & Hdb & _).
  exists s2. split; [exact Hrun|]. split; [exact Hev|exact Hdb].
Defined.

(** C5 as the claim has it fails: with one document waiting and the
    connection lost on the query, the loop breaks without any of its
    failure reports, and the job logs what it logs when every document is
    processed, the error line of the selector apart. *)
Lemma selector_failure_treated_as_completion :
  fst (with_engine_connect
         (read_sql RAW_DATA_TABLE_NAME PROCESSED_DATA_TABLE_NAME 100) connection_lost)
    = Raise (SQLAlchemyError "server closed the connection unexpectedly")
  ∧ fst (loop_body text_only_parser connection_lost) = Ok Break
  ∧ fst (loop_body text_only_parser all_processed) = Ok Break
  ∧ existsb reports_failure (events (snd (loop_body text_only_parser connection_lost))) = false
  ∧ events <$> main text_only_parser 1 connection_lost
    = Some [LogInfo "--------------------Start of job--------------------";
            LogError "Error in download_table_to_df: server closed the connection unexpectedly";
            LogInfo "No new data to process.";
            LogInfo "Processed rows count: 0";
            LogInfo "--------------------End of job--------------------"]
  ∧ events <$> main text_only_parser 1 all_processed
    = Some [LogInfo "--------------------Start of job--------------------";
            LogInfo "No new data to process.";
            LogInfo "Processed rows count: 0";
            LogInfo "--------------------End of job--------------------"]
  ∧ db <$> main text_only_parser 1 connection_lost = Some two_documents.
Proof. vm_compute. repeat split; reflexivity. Qed.


(** ** The loop of the batch job *)

Lemma matched_app (p q : list Row) (t1 : Row) :
  matched (p ++ q) t1 = matched p t1 || matched q t1.
Proof. unfold matched. apply existsb_app. Qed.

Lemma filter_length_le {A} (P P' : A → bool) (l : list A) :
  (∀ x, P' x = true → P x = true) →
  (length (List.filter P' l) ≤ length (List.filter P l))%nat.
Proof.
  intros Himp. induction l as [|a l IH]; simpl; [lia|].
  destruct (P' a) eqn:E'; [rewrite (Himp a E'); simpl; lia|].
  destruct (P a); simpl; lia.
Qed.

Lemma filter_length_lt {A} (P P' : A → bool) (l : list A) (x0 : A) :
  (∀ x, P' x = true → P x = true) →
  In x0 l → P x0 = true → P' x0 = false →
  (length (List.filter P' l) < length (List.filter P l))%nat.
Proof.
  intros Himp. induction l as [|a l IH]; simpl; [contradiction|].
  intros [->|Hin] HP HP'.
  - rewrite HP, HP'. simpl. pose proof (filter_length_le P P' l Himp). lia.
  - specialize (IH Hin HP HP').
    destruct (P' a) eqn:E'; [rewrite (Himp a E'); simpl; lia|].
    destruct (P a); simpl; lia.
Qed.

Lemma download_table_to_df_nonempty (s s1 : State) (df : DataFrame) :
  download_table_to_df RAW_DATA_TABLE_NAME PROCESSED_DATA_TABLE_NAME 100 s = (Ok df, s1) →
  df_empty df = false →
  run_query (db s) RAW_DATA_TABLE_NAME PROCESSED_DATA_TABLE_NAME 100 = Ok df.
Proof.
  intros Hdl Hne.
  destruct (download_table_to_df_run RAW_DATA_TABLE_NAME PROCESSED_DATA_TABLE_NAME 100 s)
    as (df' & s' & Hrun & _ & _ & _ & _ & Hcases & _).
  rewrite Hdl in Hrun. injection Hrun as <- <-.
  destruct Hcases as [[Hq _]|[-> _]]; [exact Hq|discriminate Hne].
Qed.

Lemma download_table_to_df_state (s s1 : State) (df : DataFrame) :
  download_table_to_df RAW_DATA_TABLE_NAME PROCESSED_DATA_TABLE_NAME 100 s = (Ok df, s1) →
  db s1 = db s ∧ tables s1 = tables s ∧ processed_count s1 = processed_count s
  ∧ error_columns s1 = error_columns s.
Proof.
  intros Hdl.
  destruct (download_table_to_df_run RAW_DATA_TABLE_NAME PROCESSED_DATA_TABLE_NAME 100 s)
    as (df' & s' & Hrun & Hdb & Ht & Hpc & Hec & _).
  rewrite Hdl in Hrun. injection Hrun as <- <-. auto.
Qed.

(** The frame of a successful query: the first hundred unprocessed rows. *)
Lemma run_query_rows (d : Database) (df : DataFrame) :
  run_query d RAW_DATA_TABLE_NAME PROCESSED_DATA_TABLE_NAME 100 = Ok df →
  df_rows df = take 100 (unprocessed d) ∧ "id" ∈ df_columns df.
Proof.
  unfold run_query, unprocessed, raw_rows, processed_rows.
  destruct (d !! RAW_DATA_TABLE_NAME) as [raw|]; [|discriminate].
  destruct (d !! PROCESSED_DATA_TABLE_NAME) as [processed|]; [|discriminate].
  destruct (bool_decide ("id" ∈ column_names raw)) eqn:Eid; [|discriminate].
  destruct (bool_decide ("id" ∈ column_names processed)); [|discriminate].
  simpl. intros [= <-]. simpl. split; [reflexivity|].
  apply bool_decide_eq_true in Eid. exact Eid.
Qed.

Section BatchLoop.

Variable BeautifulSoup : value → Result (list Node).

Lemma NoDup_columns_to_clean : NoDup columns_to_clean.
Proof.
  unfold columns_to_clean.
  repeat (apply NoDup_cons; split;
          [intros H; repeat (apply elem_of_cons in H as [H|H]; [discriminate H|]);
           inversion H|]).
  apply NoDup_nil. exact I.
Qed.

(** Cleaning keeps the rows in place and touches the cleaned columns
    only. *)
Lemma cleaned_untouched_cell (df : DataFrame) (c : string) :
  c ∉ columns_to_clean →
  ∃ g : Row → Row,
    df_rows (cleaned BeautifulSoup columns_to_clean df) = g <$> df_rows df
    ∧ ∀ r, g r !! c = r !! c.
Proof.
  intros Hc.
  destruct (cleaned_rows BeautifulSoup columns_to_clean df NoDup_columns_to_clean)
    as (g & Hg & Hlook).
  exists g. split; [exact Hg|]. intros r. rewrite Hlook.
  rewrite (bool_decide_eq_false_2 (c ∈ columns_to_clean)) by exact Hc. reflexivity.
Qed.

(** What a turn that goes on to the next one has done: it fetched the
    first hundred unprocessed rows and appended them, cleaned, to the
    processed table; the raw table is as it was. *)
Lemma loop_body_continue (s s' : State) :
  loop_body BeautifulSoup s = (Ok Continue, s') →
  ∃ df,
    df_rows df = take 100 (unprocessed (db s)) ∧ df_rows df ≠ []
    ∧ processed_rows (db s')
      = processed_rows (db s) ++ df_rows (cleaned BeautifulSoup columns_to_clean df)
    ∧ raw_rows (db s') = raw_rows (db s)
    ∧ processed_count s' = processed_count s + df_len df
    ∧ error_columns s' = error_columns s ++ clean_failures columns_to_clean df
    ∧ (faults s = [] → faults s' = []).
Proof.
  intros Hbody.
  destruct (download_table_to_df_run RAW_DATA_TABLE_NAME PROCESSED_DATA_TABLE_NAME 100 s)
    as (df & s1 & Hdl & Hdb & _ & Hpc & Hec & _ & Hfaults).
  rewrite (loop_body_run BeautifulSoup s s1 df Hdl) in Hbody.
  destruct (df_empty df) eqn:Hempty; [discriminate Hbody|].
  destruct (to_sql _ _ _) as [[[]|e] s3] eqn:Hwrite; [|discriminate Hbody].
  injection Hbody as <-.
  apply to_sql_ok in Hwrite
    as (t' & Ht' & Hrows & Hother & _ & Hec3 & Hpc3 & _ & Hf3).
  simpl in Hrows, Hother, Hec3, Hpc3, Hf3. rewrite Hdb in Hrows, Hother.
  pose proof (download_table_to_df_nonempty s s1 df Hdl Hempty) as Hq.
  apply run_query_rows in Hq as [Hq _].
  exists df. split; [exact Hq|]. split.
  { intros Hnil. unfold df_empty in Hempty. rewrite Hnil in Hempty.
    destruct (df_columns df); discriminate Hempty. }
  simpl. unfold processed_rows, raw_rows. rewrite Ht', Hother by discriminate.
  simpl. rewrite Hrows, Hpc3, Hec3, Hpc, Hec.
  repeat split; auto. intros Hf. apply Hf3. apply Hfaults. exact Hf.
Qed.

Lemma unprocessed_shrinks (s s' : State) :
  raw_rows_keyed (db s) →
  loop_body BeautifulSoup s = (Ok Continue, s') →
  (length (unprocessed (db s')) < length (unprocessed (db s)))%nat
  ∧ raw_rows (db s') = raw_rows (db s).
Proof.
  intros Hkeyed Hbody.
  apply loop_body_continue in Hbody as (df & Hdf & Hne & Hproc & Hraw & _).
  split; [|exact Hraw].
  destruct (cleaned_untouched_cell df "id") as (g & Hg & Hid).
  { intros H. unfold columns_to_clean in H.
    repeat (apply elem_of_cons in H as [H|H]; [discriminate H|]). inversion H. }
  unfold unprocessed. rewrite Hraw, Hproc, Hg.
  destruct (df_rows df) as [|r0 rows] eqn:Erows; [congruence|].
  assert (Hr0 : In r0 (unprocessed (db s))).
  { apply list_elem_of_In. eapply subseteq_take. rewrite <- Hdf. left. }
  unfold unprocessed in Hr0. apply filter_In in Hr0 as [Hin Hun].
  apply (filter_length_lt _ _ _ r0); [|exact Hin|exact Hun|].
  - intros x. rewrite matched_app, negb_orb. intros [H _]%andb_true_iff. exact H.
  - rewrite matched_app. apply negb_false_iff, orb_true_iff. right.
    apply matched_spec. exists (g r0). split; [rewrite fmap_cons; left|].
    unfold cell at 2. rewrite Hid. fold (cell r0 "id").
    apply sql_eq_refl. apply Hkeyed. apply list_elem_of_In. exact Hin.
Qed.

(** The loop ends within one turn more than there are unprocessed rows,
    whatever fails on the way, when every raw row carries an [id]. *)
Lemma while_true_terminates (fuel : nat) : ∀ s,
  raw_rows_keyed (db s) →
  (length (unprocessed (db s)) < fuel)%nat →
  ∃ s', while_true BeautifulSoup fuel s = Some (Ok (), s').
Proof.
  induction fuel as [|fuel IH]; intros s Hkeyed Hfuel; [lia|].
  cbn [while_true].
  destruct (download_table_to_df_run RAW_DATA_TABLE_NAME PROCESSED_DATA_TABLE_NAME 100 s)
    as (df & s1 & Hdl & _).
  pose proof (loop_body_run BeautifulSoup s s1 df Hdl) as Hrun.
  destruct (loop_body BeautifulSoup s) as [[[]|e] s'] eqn:Hbody.
  - destruct (unprocessed_shrinks s s' Hkeyed Hbody) as [Hlt Hraw].
    apply IH; [|lia]. unfold raw_rows_keyed. rewrite Hraw. exact Hkeyed.
  - eauto.
  - exfalso. cbv zeta in Hrun. destruct (df_empty df); [discriminate Hrun|].
    destruct (to_sql _ _ _) as [[[]|e'] s3]; discriminate Hrun.
Qed.

End BatchLoop.

(** ** The whole job *)

Lemma summary_run (s : State) :
  snd (summary s) = set_events (events s ++ summary_lines s) s.
Proof.
  unfold summary, summary_lines, bind, get, logging_info, emit, modify, ret.
  destruct s as [d t ev f tb pc ec]. simpl.
  destruct ec; simpl; apply State_eq; simpl; auto; rewrite <- !app_assoc; reflexivity.
Qed.

Section Job.

Variable BeautifulSoup : value → Result (list Node).

(** [main], spelt out. *)
Lemma main_run (fuel : nat) (s : State) :
  main BeautifulSoup fuel s =
    match connect_with_connector (started s) with
    | (Raise e, s1) =>
        Some (snd (summary (set_events (events s1
                                        ++ [LogError ("Error in main: " +:+ str_exn e)]) s1)))
    | (Ok _, s1) =>
        match while_true BeautifulSoup fuel s1 with
        | None => None
        | Some (Ok _, s2) => Some (snd (summary s2))
        | Some (Raise e, s2) =>
            Some (snd (summary (set_events (events s2
                                            ++ [LogError ("Error in main: " +:+ str_exn e)]) s2)))
        end
    end.
Proof.
  unfold main, main_try, started, logging_info, logging_error, emit, modify, bind.
  cbn [snd].
  destruct (connect_with_connector _) as [[[]|e] s1]; [|reflexivity].
  destruct (while_true BeautifulSoup fuel s1) as [[[[]|e] s2]|]; reflexivity.
Qed.

Lemma connect_with_connector_run (s : State) :
  ∃ r s1, connect_with_connector s = (r, s1)
          ∧ db s1 = db s ∧ events s1 = events s ∧ processed_count s1 = processed_count s
          ∧ error_columns s1 = error_columns s ∧ tables s1 = tables s
          ∧ (faults s = [] → r = Ok () ∧ faults s1 = []).
Proof.
  unfold connect_with_connector, outside_world.
  destruct (faults s) as [|[e|] rest] eqn:E; do 2 eexists; (split; [reflexivity|]);
    simpl; repeat split; auto; discriminate.
Qed.

(** X1. When every raw row carries an [id], the job ends, whatever fails
    on the way, once the fuel exceeds the number of unprocessed rows. *)
Theorem main_terminates (fuel : nat) (s : State) :
  raw_rows_keyed (db s) →
  (length (unprocessed (db s)) < fuel)%nat →
  ∃ s', main BeautifulSoup fuel s = Some s'.
Proof.
  intros Hkeyed Hfuel. rewrite main_run.
  destruct (connect_with_connector_run (started s)) as (r & s1 & Hc & Hdb & _).
  rewrite Hc. destruct r as [[]|e]; [|eauto].
  destruct (while_true_terminates BeautifulSoup fuel s1) as (s2 & Hloop).
  - rewrite Hdb. exact Hkeyed.
  - rewrite Hdb. exact Hfuel.
  - rewrite Hloop. eauto.
Qed.

End Job.

(** Projections of updated states, without unfolding anything else. *)
Ltac state_simpl :=
  cbn [db tx events faults tables processed_count error_columns
       set_db set_tx set_events set_faults set_tables set_processed_count
       set_error_columns] in *.

Section Rerun.

Variable BeautifulSoup : value → Result (list Node).

Lemma sanitize_log_errors (html : value) (ev : Event) :
  ev ∈ sanitize_log BeautifulSoup html → error_line ev.
Proof.
  unfold sanitize_log, error_line. destruct html; [intros H; inversion H| |];
    (destruct (BeautifulSoup _); [intros H; inversion H|];
     intros H; apply list_elem_of_singleton in H; subst ev; eexists; reflexivity).
Qed.

Lemma clean_log_errors (columns : list string) : ∀ (df : DataFrame) (ev : Event),
  ev ∈ clean_log BeautifulSoup columns df → error_line ev.
Proof.
  induction columns as [|column rest IH]; intros df ev; cbn [clean_log].
  - intros H; inversion H.
  - destruct (bool_decide (column ∈ df_columns df)).
    + intros [H|H]%elem_of_app; [|eapply IH; exact H].
      unfold apply_log in H. apply list_elem_of_In, in_flat_map in H as (r & _ & H).
      eapply sanitize_log_errors. apply list_elem_of_In. exact H.
    + intros [->|H]%elem_of_cons; [eexists; reflexivity|eapply IH; exact H].
Qed.

(** On a settled database a turn of the loop breaks at once, whatever
    fails, and writes nothing. *)
Lemma loop_body_settled (s : State) :
  settled (db s) →
  ∃ s', loop_body BeautifulSoup s = (Ok Break, s')
        ∧ db s' = db s ∧ processed_count s' = processed_count s.
Proof.
  intros Hsettled.
  destruct (download_table_to_df_run RAW_DATA_TABLE_NAME PROCESSED_DATA_TABLE_NAME 100 s)
    as (df & s1 & Hdl & Hdb & _ & Hpc & _ & Hcases & _).
  rewrite (loop_body_run BeautifulSoup s s1 df Hdl).
  assert (Hrows : df_rows df = []).
  { destruct Hcases as [[Hq _]|[-> _]]; [apply Hsettled, Hq|reflexivity]. }
  assert (Hempty : df_empty df = true).
  { unfold df_empty. rewrite Hrows. destruct (df_columns df); reflexivity. }
  rewrite Hempty. eexists. split; [reflexivity|]. simpl.
  unfold df_len. rewrite Hrows, Hdb, Hpc. simpl. split; [reflexivity|lia].
Qed.

(** A loop that ran without outside failure and ended on the line "No
    new data to process." leaves a settled database. *)
Lemma while_true_settles (fuel : nat) : ∀ (s s1 : State) r,
  faults s = [] →
  while_true BeautifulSoup fuel s = Some (r, s1) →
  ∃ new, events s1 = events s ++ new
         ∧ (no_new_data ∈ new → settled (db s1)).
Proof.
  induction fuel as [|fuel IH]; intros s s1 r Hfaults Hloop; [discriminate Hloop|].
  cbn [while_true] in Hloop.
  destruct (download_table_to_df_run RAW_DATA_TABLE_NAME PROCESSED_DATA_TABLE_NAME 100 s)
    as (df & s0 & Hdl & Hdb & _ & _ & _ & Hcases & Hff).
  destruct (Hff Hfaults) as [Hf0 Hsame].
  pose proof (loop_body_run BeautifulSoup s s0 df Hdl) as Hrun. cbv zeta in Hrun.
  assert (Hev0 : ∃ pre, events s0 = events s ++ pre ∧ ∀ ev, ev ∈ pre → error_line ev).
  { destruct Hcases as [[_ ->]|[_ [e ->]]].
    - exists []. rewrite app_nil_r. split; [reflexivity|]. intros ev H; inversion H.
    - eexists. split; [reflexivity|]. intros ev H. apply list_elem_of_singleton in H.
      subst ev. eexists; reflexivity. }
  destruct Hev0 as (pre & Hev0 & Hpre).
  destruct (df_empty df) eqn:Hempty.
  - rewrite Hrun in Hloop. injection Hloop as <- <-.
    exists (pre ++ [no_new_data]). state_simpl. rewrite Hev0, <- app_assoc.
    split; [reflexivity|]. intros _ df0 Hq. rewrite Hdb in Hq.
    rewrite <- (Hsame df0 Hq). pose proof Hq as Hq'. rewrite <- (Hsame df0 Hq) in Hq'.
    apply run_query_rows in Hq' as [_ Hid].
    unfold df_empty in Hempty. destruct (df_columns df); [inversion Hid|].
    destruct (df_rows df); [reflexivity|discriminate Hempty].
  - destruct (to_sql _ _ _) as [[[]|e] s3] eqn:Hwrite.
    + rewrite Hrun in Hloop.
      pose proof Hwrite as Hw. apply to_sql_ok in Hw as (_ & _ & _ & _ & Hev3 & _ & _ & _ & Hf3).
      state_simpl.
      eapply IH in Hloop; [|exact (Hf3 Hf0)].
      destruct Hloop as (new & Hnew & Hsettled). state_simpl.
      exists (pre ++ clean_log BeautifulSoup columns_to_clean df
              ++ [LogInfo "Data processing and insertion completed successfully."] ++ new).
      split.
      { rewrite Hnew, Hev3, Hev0, <- !app_assoc. reflexivity. }
      intros Hin. apply Hsettled.
      apply elem_of_app in Hin as [Hin|Hin]; [apply Hpre in Hin as [? Hin]; discriminate Hin|].
      apply elem_of_app in Hin as [Hin|Hin];
        [apply clean_log_errors in Hin as [? Hin]; discriminate Hin|].
      apply elem_of_app in Hin as [Hin|Hin]; [|exact Hin].
      apply list_elem_of_singleton in Hin. discriminate Hin.
    + rewrite Hrun in Hloop. injection Hloop as <- <-.
      assert (Hev3 : events s3 = events s0 ++ clean_log BeautifulSoup columns_to_clean df).
      { revert Hwrite. unfold to_sql, bind, outside_world, get, modify, raise. state_simpl.
        rewrite Hf0. cbv beta iota. state_simpl.
        destruct (db s0 !! PROCESSED_DATA_TABLE_NAME) as [t|]; [|intros [=]].
        destruct (bool_decide _); [|intros [= <- <-]; reflexivity].
        destruct (insert_rows _ _); intros [= <- <-] || intros [=]. reflexivity. }
      exists (pre ++ clean_log BeautifulSoup columns_to_clean df ++ [loop_error_line e]).
      state_simpl. rewrite Hev3, Hev0, <- !app_assoc. split; [reflexivity|].
      intros Hin. exfalso.
      apply elem_of_app in Hin as [Hin|Hin]; [apply Hpre in Hin as [? Hin]; discriminate Hin|].
      apply elem_of_app in Hin as [Hin|Hin];
        [apply clean_log_errors in Hin as [? Hin]; discriminate Hin|].
      apply list_elem_of_singleton in Hin. discriminate Hin.
Qed.

End Rerun.

Lemma summary_lines_no_new_data (s : State) : no_new_data ∉ summary_lines s.
Proof.
  unfold summary_lines, no_new_data. intros H.
  apply elem_of_app in H as [H|H].
  { apply list_elem_of_singleton in H. simpl in H. discriminate H. }
  apply elem_of_app in H as [H|H].
  { destruct (error_columns s); [inversion H|].
    apply list_elem_of_singleton in H. simpl in H. discriminate H. }
  apply list_elem_of_singleton in H. discriminate H.
Qed.

Section RerunJob.

Variable BeautifulSoup : value → Result (list Node).

(** X2. Re-running the job writes nothing.  When a run that met no
    outside failure has logged "No new data to process.", a second run
    from the state it left, under any script of failures, ends after one
    turn of the loop with the database as it was and a count of zero. *)
Theorem main_rerun_writes_nothing (fuel fuel2 : nat) (s s1 : State)
    (failures : list (option exn)) :
  faults s = [] →
  main BeautifulSoup fuel s = Some s1 →
  no_new_data ∈ drop (length (events s)) (events s1) →
  ∃ s2, main BeautifulSoup (S fuel2) (set_faults failures s1) = Some s2
        ∧ db s2 = db s1 ∧ processed_count s2 = 0.
Proof.
  intros Hfaults Hrun Hline.
  assert (Hsettled : settled (db s1)).
  { rewrite main_run in Hrun.
    destruct (connect_with_connector_run (started s))
      as (r & s0 & Hc & _ & Hev0 & _ & _ & _ & Hf0).
    destruct (Hf0 Hfaults) as [-> Hf0']. rewrite Hc in Hrun.
    destruct (while_true BeautifulSoup fuel s0) as [[r s']|] eqn:Hloop; [|discriminate Hrun].
    destruct (while_true_settles BeautifulSoup fuel s0 s' r Hf0' Hloop)
      as (new & Hnew & Hsettled).
    assert (Hs1 : ∃ more, events s1 = events s ++ ([LogInfo (dashes +:+ "Start of job" +:+ dashes)]
                                                   ++ new ++ more)
                          ∧ (no_new_data ∉ more) ∧ db s1 = db s').
    { destruct r as [[]|e]; injection Hrun as <-; rewrite summary_run; state_simpl.
      - exists (summary_lines s'). rewrite Hnew, Hev0. unfold started. state_simpl.
        rewrite <- !app_assoc. split; [reflexivity|].
        split; [apply summary_lines_no_new_data|reflexivity].
      - eexists. rewrite Hnew, Hev0. unfold started. state_simpl.
        rewrite <- !app_assoc. split; [reflexivity|]. split; [|reflexivity].
        intros [H|H]%elem_of_cons; [discriminate H|].
        revert H. apply summary_lines_no_new_data. }
    destruct Hs1 as (more & Hev1 & Hmore & Hdb1).
    rewrite Hdb1. apply Hsettled.
    rewrite Hev1, drop_app_length in Hline.
    apply elem_of_cons in Hline as [Hline|Hline]; [discriminate Hline|].
    apply elem_of_app in Hline as [Hline|Hline]; [exact Hline|contradiction]. }
  clear Hrun Hline Hfaults. rewrite main_run.
  destruct (connect_with_connector_run (started (set_faults failures s1)))
    as (r & s0 & Hc & Hdb0 & _ & Hpc0 & _).
  rewrite Hc. unfold started in Hdb0, Hpc0. state_simpl.
  destruct r as [[]|e].
  - cbn [while_true].
    destruct (loop_body_settled BeautifulSoup s0) as (s' & Hbody & Hdb' & Hpc').
    { rewrite Hdb0. exact Hsettled. }
    rewrite Hbody. eexists. split; [reflexivity|]. rewrite summary_run. state_simpl.
    split; congruence.
  - eexists. split; [reflexivity|]. rewrite summary_run. state_simpl. auto.
Qed.

End RerunJob.

Lemma raw_rows_keyed_check (d : Database) :
  forallb (λ r, negb (bool_decide (cell r "id" = VNone))) (raw_rows d) = true →
  raw_rows_keyed d.
Proof.
  intros H r Hr. rewrite forallb_forall in H.
  specialize (H r (proj1 (list_elem_of_In _ _) Hr)).
  apply negb_true_iff, bool_decide_eq_false in H. exact H.
Qed.

Lemma main_terminates_witness :
  ∃ s', main text_only_parser 2 two_documents_state = Some s'.
Proof.
  apply (main_terminates text_only_parser 2 two_documents_state).
  - apply raw_rows_keyed_check. vm_compute. reflexivity.
  - vm_compute. lia.
Defined.

Lemma main_rerun_writes_nothing_witness :
  ∃ s2, main text_only_parser 1
          (set_faults [None; None; Some (SQLAlchemyError "timeout")] two_documents_done)
        = Some s2
        ∧ db s2 = db two_documents_done ∧ processed_count s2 = 0.
Proof.
  apply (main_rerun_writes_nothing text_only_parser 2 0 two_documents_state).
  - reflexivity.
  - vm_compute. reflexivity.
  - vm_compute. do 5 right. left.
Defined.

(** ** Accounting *)

(** A failed [to_sql] changes nothing but the script of failures. *)
Lemma to_sql_raise (df : DataFrame) (name : string) (s s' : State) (e : exn) :
  to_sql df name s = (Raise e, s') →
  db s' = db s ∧ events s' = events s ∧ error_columns s' = error_columns s
  ∧ processed_count s' = processed_count s ∧ tables s' = tables s.
Proof.
  unfold to_sql, bind, outside_world, get, modify, raise.
  destruct (faults s) as [|[e0|] rest]; state_simpl; cbv beta iota;
    try (intros [= <- <-]; state_simpl; auto);
    (destruct (db s !! name) as [t|]; [|intros [=]];
     destruct (bool_decide _); [|intros [= <- <-]; state_simpl; auto];
     destruct (insert_rows _ _); intros [= <- <-] || intros [=]; state_simpl; auto).
Qed.

Section Turn.

Variable BeautifulSoup : value → Result (list Node).

Lemma cleaned_length (columns : list string) : ∀ df,
  length (df_rows (cleaned BeautifulSoup columns df)) = length (df_rows df).
Proof.
  induction columns as [|c rest IH]; intros df; cbn [cleaned]; [reflexivity|].
  rewrite IH. destruct (bool_decide _); [|reflexivity].
  unfold apply_sanitized. cbn [df_rows]. apply length_fmap.
Qed.

(** A turn of the loop never raises.  It logs error lines and then one
    closing line; it adds to the count the number of rows it fetched; it
    leaves the raw table alone; it either appends the cleaned rows to the
    processed table and goes on, or leaves the database as it was and
    breaks. *)
Lemma loop_body_turn (s : State) :
  ∃ (df : DataFrame) (pre : list Event) (last : Event) (flow : Flow) (s' : State),
    loop_body BeautifulSoup s = (Ok flow, s')
    ∧ events s' = events s ++ pre ++ [last]
    ∧ (∀ ev, ev ∈ pre → error_line ev)
    ∧ processed_count s' = processed_count s + df_len df
    ∧ db s' !! RAW_DATA_TABLE_NAME = db s !! RAW_DATA_TABLE_NAME
    ∧ error_columns s'
      = error_columns s ++ (if df_empty df then [] else clean_failures columns_to_clean df)
    ∧ match flow with
      | Continue =>
          last = LogInfo "Data processing and insertion completed successfully."
          ∧ df_empty df = false
          ∧ run_query (db s) RAW_DATA_TABLE_NAME PROCESSED_DATA_TABLE_NAME 100 = Ok df
          ∧ processed_rows (db s')
            = processed_rows (db s) ++ df_rows (cleaned BeautifulSoup columns_to_clean df)
      | Break =>
          db s' = db s
          ∧ ((last = no_new_data ∧ df_rows df = [])
             ∨ ((∃ e, last = loop_error_line e) ∧ df_empty df = false
                ∧ run_query (db s) RAW_DATA_TABLE_NAME PROCESSED_DATA_TABLE_NAME 100 = Ok df))
      end.
Proof.
  destruct (download_table_to_df_run RAW_DATA_TABLE_NAME PROCESSED_DATA_TABLE_NAME 100 s)
    as (df & s0 & Hdl & Hdb & _ & Hpc & Hec & Hcases & _).
  pose proof (loop_body_run BeautifulSoup s s0 df Hdl) as Hrun. cbv zeta in Hrun.
  assert (Hev0 : ∃ pre, events s0 = events s ++ pre ∧ ∀ ev, ev ∈ pre → error_line ev).
  { destruct Hcases as [[_ ->]|[_ [e ->]]].
    - exists []. rewrite app_nil_r. split; [reflexivity|]. intros ev H; inversion H.
    - eexists. split; [reflexivity|]. intros ev H. apply list_elem_of_singleton in H.
      subst ev. eexists; reflexivity. }
  destruct Hev0 as (pre & Hev0 & Hpre).
  destruct (df_empty df) eqn:Hempty.
  - exists df, pre, no_new_data, Break. eexists. split; [exact Hrun|]. state_simpl.
    rewrite Hev0, Hdb, Hpc, Hec, <- app_assoc.
    rewrite Hempty. repeat split; auto; try (symmetry; apply app_nil_r).
    left. split; [reflexivity|].
    destruct Hcases as [[Hq _]|[-> _]]; [|reflexivity].
    apply run_query_rows in Hq as [_ Hid].
    unfold df_empty in Hempty. destruct (df_columns df); [inversion Hid|].
    destruct (df_rows df); [reflexivity|discriminate Hempty].
  - pose proof (download_table_to_df_nonempty s s0 df Hdl Hempty) as Hq.
    assert (Hpre' : ∀ ev, ev ∈ pre ++ clean_log BeautifulSoup columns_to_clean df →
                          error_line ev).
    { intros ev [H|H]%elem_of_app; [auto|eapply clean_log_errors; exact H]. }
    destruct (to_sql _ _ _) as [[[]|e] s3] eqn:Hwrite.
    + exists df, (pre ++ clean_log BeautifulSoup columns_to_clean df),
        (LogInfo "Data processing and insertion completed successfully."), Continue.
      eexists. split; [exact Hrun|].
      apply to_sql_ok in Hwrite as (t' & Ht' & Hrows & Hother & Hev3 & Hec3 & Hpc3 & _).
      state_simpl. rewrite Hdb in Hrows, Hother.
      unfold processed_rows. rewrite Ht', Hother by discriminate.
      cbn [from_option]. rewrite Hrows, Hev3, Hec3, Hpc3, Hev0, Hpc, Hec, <- !app_assoc.
      rewrite Hempty. repeat split; auto.
    + exists df, (pre ++ clean_log BeautifulSoup columns_to_clean df),
        (loop_error_line e), Break.
      eexists. split; [exact Hrun|].
      apply to_sql_raise in Hwrite as (Hdb3 & Hev3 & Hec3 & Hpc3 & _).
      state_simpl. rewrite Hdb3, Hev3, Hec3, Hpc3, Hev0, Hpc, Hec, Hdb, <- !app_assoc.
      rewrite Hempty. repeat split; auto. right. repeat split; eauto.
Qed.

End Turn.

Lemma run_query_columns (d : Database) (df : DataFrame) :
  run_query d RAW_DATA_TABLE_NAME PROCESSED_DATA_TABLE_NAME 100 = Ok df →
  clean_failures columns_to_clean df = missing_columns d.
Proof.
  unfold run_query, clean_failures, missing_columns.
  destruct (d !! RAW_DATA_TABLE_NAME) as [raw|]; [|discriminate].
  destruct (d !! PROCESSED_DATA_TABLE_NAME) as [processed|]; [|discriminate].
  destruct (_ && _); [|discriminate]. intros [= <-]. reflexivity.
Qed.

Lemma missing_columns_raw (d d' : Database) :
  d' !! RAW_DATA_TABLE_NAME = d !! RAW_DATA_TABLE_NAME →
  missing_columns d' = missing_columns d.
Proof. unfold missing_columns. intros ->. reflexivity. Qed.

Lemma df_len_pos (df : DataFrame) : df_empty df = false → 0 < df_len df.
Proof.
  unfold df_empty, df_len. destruct (df_columns df); [discriminate|].
  destruct (df_rows df); [discriminate|]. simpl. lia.
Qed.

Lemma loop_error_line_not_error_line (e : exn) : ¬ error_line (loop_error_line e).
Proof.
  unfold error_line, loop_error_line. intros [msg H].
  destruct (is_SQLAlchemyError e); simpl in H; discriminate H.
Qed.

Section LoopAccount.

Variable BeautifulSoup : value → Result (list Node).

(** The loop as a whole: it never raises; the count grows by the rows
    fetched, which are at least the rows written, and exactly the rows
    written when the loop ends on "No new data to process."; the raw table
    is never touched; the failure list gains, for every batch that was
    fetched, the configured columns the raw table lacks. *)
Lemma while_true_account (fuel : nat) : ∀ (s s1 : State) r,
  while_true BeautifulSoup fuel s = Some (r, s1) →
  ∃ (new : list Event) (batches : nat),
    r = Ok ()
    ∧ events s1 = events s ++ new
    ∧ db s1 !! RAW_DATA_TABLE_NAME = db s !! RAW_DATA_TABLE_NAME
    ∧ 0 ≤ rows_added s s1 ≤ processed_count s1 - processed_count s
    ∧ (no_new_data ∈ new → processed_count s1 - processed_count s = rows_added s s1)
    ∧ (∀ e, loop_error_line e ∈ new →
            rows_added s s1 < processed_count s1 - processed_count s)
    ∧ error_columns s1
      = error_columns s ++ mjoin (replicate batches (missing_columns (db s)))
    ∧ (0 < processed_count s1 - processed_count s ↔ (0 < batches)%nat).
Proof.
  induction fuel as [|fuel IH]; intros s s1 r Hloop; [discriminate Hloop|].
  cbn [while_true] in Hloop.
  destruct (loop_body_turn BeautifulSoup s)
    as (df & pre & last & flow & s' & Hbody & Hev & Hpre & Hpc & Hraw & Hec & Hflow).
  rewrite Hbody in Hloop. destruct flow.
  - destruct Hflow as (-> & Hempty & Hq & Hproc). rewrite Hempty in Hec.
    apply IH in Hloop as (new & n & -> & Hev1 & Hraw1 & Hadd & Hexact & Hlost & Hec1 & Hn).
    exists (pre ++ [LogInfo "Data processing and insertion completed successfully."] ++ new),
      (S n).
    assert (Hlen : rows_added s s1 = rows_added s' s1 + df_len df).
    { unfold rows_added, df_len. rewrite Hproc, length_app, cleaned_length. lia. }
    pose proof (df_len_pos df Hempty) as Hpos.
    split; [reflexivity|]. split; [rewrite Hev1, Hev, <- !app_assoc; reflexivity|].
    split; [congruence|]. split; [lia|]. split; [|split; [|split]].
    + intros Hin. rewrite Hlen, <- Hexact; [lia|].
      apply elem_of_app in Hin as [Hin|Hin]; [apply Hpre in Hin as [? Hin]; discriminate Hin|].
      apply elem_of_cons in Hin as [Hin|Hin]; [discriminate Hin|exact Hin].
    + intros e Hin. rewrite Hlen. enough (rows_added s' s1 < processed_count s1 - processed_count s') by lia.
      apply (Hlost e).
      apply elem_of_app in Hin as [Hin|Hin];
        [apply Hpre in Hin; exfalso; revert Hin; apply loop_error_line_not_error_line|].
      apply elem_of_cons in Hin as [Hin|Hin]; [|exact Hin].
      unfold loop_error_line in Hin. discriminate Hin.
    + rewrite Hec1, Hec, (run_query_columns _ _ Hq), (missing_columns_raw _ _ Hraw).
      cbn [replicate mjoin list_join]. rewrite <- app_assoc. reflexivity.
    + split; intros; lia.
  - injection Hloop as <- <-. destruct Hflow as (Hdb & Hlast).
    assert (Hadded : rows_added s s' = 0). { unfold rows_added. rewrite Hdb. lia. }
    destruct Hlast as [[-> Hrows]|[[e ->] [Hempty Hq]]].
    + exists (pre ++ [no_new_data]), O.
      assert (Hlen : df_len df = 0) by (unfold df_len; rewrite Hrows; reflexivity).
      assert (Hemp : df_empty df = true).
      { unfold df_empty. rewrite Hrows. destruct (df_columns df); reflexivity. }
      rewrite Hemp in Hec. cbn [replicate mjoin list_join].
      repeat split; auto; try lia.
      intros e Hin. exfalso.
      apply elem_of_app in Hin as [Hin|Hin];
        [apply Hpre in Hin; revert Hin; apply loop_error_line_not_error_line|].
      apply list_elem_of_singleton in Hin. unfold loop_error_line in Hin. discriminate Hin.
    + exists (pre ++ [loop_error_line e]), 1%nat.
      pose proof (df_len_pos df Hempty) as Hpos. rewrite Hempty in Hec.
      cbn [replicate mjoin list_join]. rewrite app_nil_r, <- (run_query_columns _ _ Hq).
      repeat split; auto; try lia.
      intros Hin. exfalso.
      apply elem_of_app in Hin as [Hin|Hin]; [apply Hpre in Hin as [? Hin]; discriminate Hin|].
      apply list_elem_of_singleton in Hin. discriminate Hin.
Qed.

End LoopAccount.

Section JobAccount.

Variable BeautifulSoup : value → Result (list Node).

(** The state of the job when it reaches its closing lines. *)
Lemma main_before_summary (fuel : nat) (s s1 : State) :
  main BeautifulSoup fuel s = Some s1 →
  ∃ (s2 : State) (mid : list Event) (batches : nat),
    s1 = set_events (events s2 ++ summary_lines s2) s2
    ∧ events s2 = events s ++ [LogInfo (dashes +:+ "Start of job" +:+ dashes)] ++ mid
    ∧ db s2 !! RAW_DATA_TABLE_NAME = db s !! RAW_DATA_TABLE_NAME
    ∧ 0 ≤ rows_added s s2 ≤ processed_count s2
    ∧ (no_new_data ∈ mid → processed_count s2 = rows_added s s2)
    ∧ (∀ e, loop_error_line e ∈ mid → rows_added s s2 < processed_count s2)
    ∧ error_columns s2 = mjoin (replicate batches (missing_columns (db s)))
    ∧ (0 < processed_count s2 ↔ (0 < batches)%nat).
Proof.
  rewrite main_run. intros Hrun.
  destruct (connect_with_connector_run (started s))
    as (r & s0 & Hc & Hdb0 & Hev0 & Hpc0 & Hec0 & _).
  rewrite Hc in Hrun. unfold started in Hdb0, Hev0, Hpc0, Hec0. state_simpl.
  destruct r as [[]|e].
  - destruct (while_true BeautifulSoup fuel s0) as [[r s2]|] eqn:Hloop; [|discriminate Hrun].
    apply while_true_account in Hloop
      as (new & n & -> & Hev & Hraw & Hadd & Hexact & Hlost & Hec & Hn).
    injection Hrun as <-. rewrite summary_run.
    exists s2, new, n. unfold rows_added in *. rewrite Hdb0 in *.
    rewrite Hpc0 in *. rewrite Hec0 in Hec. rewrite Hev0 in Hev.
    split; [reflexivity|]. split; [rewrite Hev, <- app_assoc; reflexivity|].
    split; [exact Hraw|].
    split; [lia|]. split; [intros Hin; specialize (Hexact Hin); lia|].
    split; [intros e Hin; specialize (Hlost e Hin); lia|].
    split; [exact Hec|]. rewrite <- Hn. split; intros; lia.
  - injection Hrun as <-. rewrite summary_run.
    eexists. exists [LogError ("Error in main: " +:+ str_exn e)], O.
    split; [reflexivity|]. state_simpl. unfold rows_added. state_simpl.
    rewrite Hdb0, Hev0, Hpc0, Hec0, <- app_assoc.
    split; [reflexivity|]. split; [reflexivity|]. split; [lia|].
    split; [intros Hin; apply list_elem_of_singleton in Hin; discriminate Hin|].
    split.
    { intros e0 Hin. apply list_elem_of_singleton in Hin. exfalso.
      unfold loop_error_line in Hin. destruct (is_SQLAlchemyError e0); simpl in Hin;
        discriminate Hin. }
    split; [reflexivity|]. split; intros; lia.
Qed.

(** X3. The count the job reports.  When the job ends, the count it logs
    is at least the number of rows it added to the processed table; it
    is that number when the loop ended on "No new data to process."; it
    is more when the loop ended on a failed write, whose batch was
    counted when it was fetched.  The raw table is as the job found it. *)
Theorem main_count_accounts_for_rows_added (fuel : nat) (s s1 : State) :
  main BeautifulSoup fuel s = Some s1 →
  0 ≤ rows_added s s1 ≤ processed_count s1
  ∧ (no_new_data ∈ drop (length (events s)) (events s1) →
     processed_count s1 = rows_added s s1)
  ∧ (∀ e, loop_error_line e ∈ drop (length (events s)) (events s1) →
          rows_added s s1 < processed_count s1)
  ∧ LogInfo ("Processed rows count: " +:+ pretty (processed_count s1)) ∈ events s1
  ∧ db s1 !! RAW_DATA_TABLE_NAME = db s !! RAW_DATA_TABLE_NAME.
Proof.
  intros Hrun.
  apply main_before_summary in Hrun
    as (s2 & mid & n & -> & Hev & Hraw & Hadd & Hexact & Hlost & _).
  unfold rows_added in *. state_simpl.
  split; [exact Hadd|]. split; [|split; [|split; [|exact Hraw]]].
  - rewrite Hev, <- !app_assoc, drop_app_length. intros Hin. apply Hexact.
    apply elem_of_cons in Hin as [Hin|Hin]; [discriminate Hin|].
    apply elem_of_app in Hin as [Hin|Hin]; [exact Hin|].
    exfalso. revert Hin. apply summary_lines_no_new_data.
  - rewrite Hev, <- !app_assoc, drop_app_length. intros e Hin. apply (Hlost e).
    apply elem_of_cons in Hin as [Hin|Hin]; [discriminate Hin|].
    apply elem_of_app in Hin as [Hin|Hin]; [exact Hin|].
    exfalso. unfold summary_lines in Hin.
    apply elem_of_app in Hin as [Hin|Hin];
      [apply list_elem_of_singleton in Hin; discriminate Hin|].
    apply elem_of_app in Hin as [Hin|Hin];
      [destruct (error_columns s2); [inversion Hin|];
       apply list_elem_of_singleton in Hin; discriminate Hin|].
    apply list_elem_of_singleton in Hin. discriminate Hin.
  - apply elem_of_app. right. unfold summary_lines. left.
Qed.

(** X4. The names the job reports as failed.  A name is in the failure
    list at the end of the job exactly when it is a configured column
    that the raw table lacks and at least one batch was fetched; a list
    that is not empty is logged in the closing lines. *)
Theorem main_failed_columns (fuel : nat) (s s1 : State) :
  main BeautifulSoup fuel s = Some s1 →
  (∀ c, c ∈ error_columns s1
        ↔ 0 < processed_count s1 ∧ c ∈ columns_to_clean
          ∧ c ∉ from_option column_names [] (db s !! RAW_DATA_TABLE_NAME))
  ∧ (error_columns s1 ≠ [] →
     LogInfo ("Rows that failed to process: " +:+ repr_list (error_columns s1))
     ∈ events s1).
Proof.
  intros Hrun.
  apply main_before_summary in Hrun
    as (s2 & mid & n & -> & _ & _ & _ & _ & _ & Hec & Hn).
  state_simpl. split.
  - intros c. rewrite Hec, Hn. unfold missing_columns.
    split.
    + intros Hc. apply list_elem_of_join in Hc as (l & Hc & Hl).
      apply elem_of_replicate in Hl as [-> Hpos].
      apply list_elem_of_In, filter_In in Hc as [Hc Habsent].
      apply negb_true_iff, bool_decide_eq_false in Habsent.
      split; [lia|]. split; [apply list_elem_of_In, Hc|exact Habsent].
    + intros (Hpos & Hc & Habsent). apply list_elem_of_join.
      eexists. split; [|apply elem_of_replicate; split; [reflexivity|lia]].
      apply list_elem_of_In, filter_In. split; [apply list_elem_of_In, Hc|].
      apply negb_true_iff, bool_decide_eq_false. exact Habsent.
  - intros Hne. apply elem_of_app. right. unfold summary_lines.
    destruct (error_columns s2) as [|c cols]; [congruence|].
    right. left.
Qed.

End JobAccount.

Lemma main_count_accounts_for_rows_added_witness :
  processed_count two_documents_done = 1
  ∧ rows_added two_documents_state two_documents_done = 1.
Proof.
  destruct (main_count_accounts_for_rows_added text_only_parser 2
              two_documents_state two_documents_done ltac:(vm_compute; reflexivity))
    as (_ & Hexact & _).
  rewrite <- Hexact; [split; vm_compute; reflexivity|].
  vm_compute. do 5 right. left.
Defined.

Lemma main_failed_columns_witness :
  "abstract_de" ∈ error_columns two_documents_done
  ∧ "content" ∉ error_columns two_documents_done.
Proof.
  destruct (main_failed_columns text_only_parser 2
              two_documents_state two_documents_done ltac:(vm_compute; reflexivity))
    as (Hiff & _).
  split.
  - apply Hiff. split; [vm_compute; reflexivity|]. split; [left|].
    vm_compute. intros H. apply list_elem_of_In in H. simpl in H.
    destruct H as [H|[H|[]]]; discriminate H.
  - intros H. apply Hiff in H as (_ & _ & H). apply H.
    vm_compute. right. left.
Defined.

(** ** Cleaning a batch *)

Section CleanBatch.

Variable BeautifulSoup : value → Result (list Node).

Lemma sanitized_not_None (html : value) : sanitized BeautifulSoup html ≠ VNone.
Proof.
  unfold sanitized, plain_text. destruct html; [discriminate| |];
    destruct (BeautifulSoup _); discriminate.
Qed.

(** X5. The loop over [columns_to_clean] never raises and touches
    neither the database nor the count.  It keeps the columns, the number
    and the order of the rows; in each row, a configured column that the
    frame has holds the sanitized cell, which is never [None], and every
    other entry is as it was; the configured columns that the frame lacks
    are appended, in order, to the failure list. *)
Theorem clean_columns_isolates_failures (df : DataFrame) (s : State) :
  ∃ df' s',
    clean_columns BeautifulSoup columns_to_clean df s = (Ok df', s')
    ∧ df_columns df' = df_columns df
    ∧ length (df_rows df') = length (df_rows df)
    ∧ (∀ i r, df_rows df !! i = Some r →
         ∃ r', df_rows df' !! i = Some r'
               ∧ ∀ c, if bool_decide (c ∈ columns_to_clean) && bool_decide (c ∈ df_columns df)
                      then r' !! c = Some (sanitized BeautifulSoup (cell r c))
                           ∧ cell r' c ≠ VNone
                      else r' !! c = r !! c)
    ∧ error_columns s'
      = error_columns s
        ++ List.filter (λ c, negb (bool_decide (c ∈ df_columns df))) columns_to_clean
    ∧ db s' = db s ∧ processed_count s' = processed_count s ∧ faults s' = faults s.
Proof.
  rewrite clean_columns_run. do 2 eexists. split; [reflexivity|]. state_simpl.
  split; [apply cleaned_columns|]. split; [apply cleaned_length|].
  split; [|repeat split].
  intros i r Hr.
  destruct (cleaned_rows BeautifulSoup columns_to_clean df NoDup_columns_to_clean)
    as (g & Hg & Hlook).
  exists (g r). rewrite Hg, list_lookup_fmap, Hr. split; [reflexivity|].
  intros c. specialize (Hlook r c).
  destruct (_ && _); [|exact Hlook].
  split; [exact Hlook|]. unfold cell at 1. rewrite Hlook. apply sanitized_not_None.
Qed.

End CleanBatch.


(** ** [create_or_update_table] as the module is written *)

Lemma always_raises_bind_r {A B} (m : M A) (k : A → M B) :
  (∀ a, always_raises (k a)) → always_raises (bind m k).
Proof.
  intros Hk s. unfold bind. destruct (m s) as [[a|e] s1]; [apply Hk|eauto].
Qed.

Lemma always_raises_bind_l {A B} (m : M A) (k : A → M B) :
  always_raises m → always_raises (bind m k).
Proof.
  intros Hm s. unfold bind. destruct (Hm s) as (e & s1 & ->). eauto.
Qed.

Lemma always_raises_with_engine_connect {A} (body : M A) :
  always_raises body → always_raises (with_engine_connect body).
Proof.
  intros Hb. unfold with_engine_connect.
  apply always_raises_bind_r. intros _. apply always_raises_bind_r. intros _.
  intros s. unfold try_finally. destruct (Hb s) as (e & s1 & ->).
  unfold close. destruct (tx s1); eauto.
Qed.

Lemma global_unbound (name : string) :
  name ∉ module_globals → global module_globals name = raise (NameError name).
Proof. intros H. unfold global. rewrite bool_decide_eq_false_2 by exact H. reflexivity. Qed.

Lemma module_globals_unbound :
  ("exc" ∉ module_globals) ∧ ("inspect" ∉ module_globals) ∧ ("DDL" ∉ module_globals).
Proof.
  repeat split; intros H; apply list_elem_of_In in H; vm_compute in H;
    repeat (destruct H as [H|H]; [discriminate H|]); exact H.
Qed.

(** One table's reconciliation always ends in an exception: at the
    latest, the name [inspect] is not bound. *)
Lemma create_or_update_one_raises (schema : TableSpec) :
  always_raises (create_or_update_one module_globals schema).
Proof.
  unfold create_or_update_one.
  apply always_raises_bind_r. intros columns.
  apply always_raises_bind_r. intros table.
  apply always_raises_bind_r. intros _.
  apply always_raises_bind_r. intros _.
  apply always_raises_with_engine_connect.
  apply always_raises_bind_l.
  rewrite global_unbound by apply module_globals_unbound.
  intros s. unfold raise. eauto.
Qed.

(** The schemas after the first are never looked at. *)
Lemma create_or_update_table_first_only (schema : TableSpec) (rest : list TableSpec)
    (s : State) :
  create_or_update_table module_globals (schema :: rest) s
  = create_or_update_table module_globals [schema] s
  ∧ ∃ e s', create_or_update_table module_globals (schema :: rest) s = (Raise e, s').
Proof.
  unfold create_or_update_table. cbn [for_each]. unfold bind.
  destruct (create_or_update_one_raises schema s) as (e & s' & ->). eauto.
Qed.

Lemma mapM_build_column_pure (cols : list ColumnSpec) (s : State) :
  ∃ r, mapM build_column cols s = (r, s).
Proof.
  revert s. induction cols as [|col cols IH]; intros s; cbn [mapM].
  - eexists; reflexivity.
  - unfold bind at 1.
    assert (Hcol : ∃ r, build_column col s = (r, s)).
    { unfold build_column, bind, ret, raise.
      destruct (bool_decide _); [|eauto].
      destruct (col_timezone col); [destruct (accepts_timezone _)|];
        destruct (col_foreign_key col); eauto. }
    destruct Hcol as [[c|e] ->]; [|eauto].
    unfold bind. destruct (IH s) as [[cs|e] ->]; unfold ret; eauto.
Qed.

(** What one table's reconciliation does to the state, as the module is
    written: it registers the table; it creates it when it is absent and
    the creation is committed; it changes nothing else in the database
    or in [self.tables], and leaves no transaction open. *)
Lemma create_or_update_one_effect (schema : TableSpec) (s s' : State) r :
  create_or_update_one module_globals schema s = (r, s') →
  let name := schema_name schema in
  (db s' = db s
   ∨ (db s !! name = None
      ∧ ∃ table, tables s' !! name = Some table
                 ∧ db s' = <[name := created_table table]> (db s)))
  ∧ (tables s' = tables s
     ∨ ∃ table, tables s' = <[name := table]> (tables s) ∧ tbl_name table = name)
  ∧ (tx s' = tx s ∨ tx s' = None).
Proof.
  intros Hrun name. revert Hrun. unfold create_or_update_one. fold name.
  unfold bind at 1. destruct (mapM_build_column_pure (schema_columns schema) s) as [[cols|e] ->];
    [|intros [= <- <-]; auto].
  unfold Table_, bind at 1, get, ret, bind at 1, modify.
  cbv beta iota. set (table := {| tbl_name := name; tbl_columns := _ |}).
  rewrite !global_unbound by apply module_globals_unbound.
  unfold with_engine_connect, try_except_exc_SQLAlchemyError, try_except, try_finally,
    conn_begin, table_create, trans_commit, trans_rollback, print, emit, bind, modify,
    outside_world, close, raise, Exception, global, get, ret.
  rewrite !(bool_decide_eq_false_2 ("exc" ∈ module_globals))
    by apply module_globals_unbound.
  destruct (db s !! name) as [t|] eqn:Hdb;
  destruct (faults s) as [|[e1|] [|[e2|] [|[e3|] [|[e4|] rest]]]] eqn:Hf;
    repeat first
      [ progress (state_simpl; cbn [tbl_name table]; rewrite ?Hf, ?Hdb;
                  cbv beta iota; unfold raise)
      | match goal with
        | |- context [create_refusal ?a ?b] => destruct (create_refusal a b)
        end ];
    intros [= <- <-]; state_simpl;
    (split; [|split; [right; exists table; split; reflexivity|auto]]);
    first [ left; reflexivity
          | right; split; [reflexivity|]; exists table; split;
            [apply lookup_insert_eq|reflexivity] ].
Qed.

(** X6. As the module is written, [create_or_update_table] on a schema
    file that is not empty always ends in an exception, and it ends where
    it would end on the first table alone: the other tables of the file
    are neither registered nor created.  No table that exists is changed
    by the call: no column is added, none is dropped, no row is touched. *)
Theorem create_or_update_table_stops_at_first_table
    (schema : TableSpec) (rest : list TableSpec) (s : State) :
  ∃ e s',
    create_or_update_table module_globals (schema :: rest) s = (Raise e, s')
    ∧ create_or_update_table module_globals [schema] s = (Raise e, s')
    ∧ (∀ name t, db s !! name = Some t → db s' !! name = Some t)
    ∧ (∀ name, name ≠ schema_name schema →
         db s' !! name = db s !! name ∧ tables s' !! name = tables s !! name).
Proof.
  destruct (create_or_update_table_first_only schema rest s) as (Hfirst & e & s' & Hrun).
  exists e, s'. split; [exact Hrun|]. split; [rewrite <- Hfirst; exact Hrun|].
  assert (Hone : create_or_update_one module_globals schema s = (Raise e, s')).
  { destruct (create_or_update_one_raises schema s) as (e1 & s1 & H1).
    revert Hrun. unfold create_or_update_table. cbn [for_each]. unfold bind.
    rewrite H1. intros [= <- <-]. reflexivity. }
  apply create_or_update_one_effect in Hone as (Hdb & Htables & _).
  split.
  - intros name t Ht. destruct Hdb as [->|(Habsent & table & _ & ->)]; [exact Ht|].
    rewrite lookup_insert_ne; [exact Ht|]. intros <-. congruence.
  - intros name Hne. split.
    + destruct Hdb as [->|(_ & table & _ & ->)]; [reflexivity|].
      apply lookup_insert_ne. congruence.
    + destruct Htables as [->|(table & -> & _)]; [reflexivity|].
      apply lookup_insert_ne. congruence.
Qed.

Lemma build_column_buildable (col : ColumnSpec) (s : State) :
  buildable col → build_column col s = (Ok (column_of col), s).
Proof.
  intros [Htype Hzone]. unfold build_column, column_of, bind, ret.
  rewrite bool_decide_eq_true_2 by exact Htype.
  destruct (col_timezone col); [rewrite Hzone by reflexivity|];
    destruct (col_foreign_key col); reflexivity.
Qed.


Lemma mapM_build_column_unknown_type (before after : list ColumnSpec) (col : ColumnSpec)
    (s : State) :
  Forall buildable before → col_type col ∉ type_mapping →
  mapM build_column (before ++ col :: after) s = (Raise (KeyError (col_type col)), s).
Proof.
  induction 1 as [|c cs Hc _ IH]; intros Htype.
  - cbn [app mapM]. unfold bind at 1, build_column.
    rewrite bool_decide_eq_false_2 by exact Htype. reflexivity.
  - cbn [app mapM]. unfold bind at 1. rewrite build_column_buildable by exact Hc.
    unfold bind. rewrite (IH Htype). reflexivity.
Qed.





(** X8. A column entry whose type is not in [type_mapping] stops
    [create_or_update_table] with [KeyError] on that type before anything
    is done for its table: nothing is registered, nothing is sent to the
    server, the state is as it was. *)
Theorem create_or_update_table_unknown_type globals
    (schema : TableSpec) (rest : list TableSpec)
    (before after : list ColumnSpec) (col : ColumnSpec) (s : State) :
  schema_columns schema = before ++ col :: after →
  Forall buildable before →
  col_type col ∉ type_mapping →
  create_or_update_table globals (schema :: rest) s
  = (Raise (KeyError (col_type col)), s).
Proof.
  intros Hcols Hbefore Htype.
  unfold create_or_update_table. cbn [for_each]. unfold bind at 1.
  unfold create_or_update_one. unfold bind at 1.
  rewrite Hcols, (mapM_build_column_unknown_type before after col s Hbefore Htype).
  reflexivity.
Qed.

(** ** Reconciliation only adds *)

Lemma extends_refl (d : Database) : extends d d.
Proof. intros name t Ht. exists t. repeat split; auto. exists []. symmetry. apply app_nil_r. Qed.

Lemma extends_trans (d1 d2 d3 : Database) : extends d1 d2 → extends d2 d3 → extends d1 d3.
Proof.
  intros H12 H23 name t Ht.
  destruct (H12 name t Ht) as (t2 & Ht2 & Hrows2 & added2 & Hcols2).
  destruct (H23 name t2 Ht2) as (t3 & Ht3 & Hrows3 & added3 & Hcols3).
  exists t3. split; [exact Ht3|]. split; [congruence|].
  exists (added2 ++ added3). rewrite Hcols3, Hcols2, app_assoc. reflexivity.
Qed.

Lemma extends_insert_new (d : Database) (name : string) (t : SqlTable) :
  d !! name = None → extends d (<[name := t]> d).
Proof.
  intros Hnone n t0 Ht0. exists t0. rewrite lookup_insert_ne by congruence.
  repeat split; auto. exists []. symmetry. apply app_nil_r.
Qed.

Lemma extends_add_column (d : Database) (name : string) (t : SqlTable) (c : DbColumn) :
  d !! name = Some t →
  extends d (<[name := {| t_columns := t_columns t ++ [c]; t_rows := t_rows t |}]> d).
Proof.
  intros Hsome n t0 Ht0. destruct (decide (n = name)) as [->|Hne].
  - rewrite lookup_insert_eq. eexists. split; [reflexivity|].
    assert (t0 = t) as -> by congruence. simpl. eauto.
  - rewrite lookup_insert_ne by congruence. exists t0.
    repeat split; auto. exists []. symmetry. apply app_nil_r.
Qed.

Section Keeps.
Context (I : State → Prop).

Lemma keeps_ret {A} (a : A) : keeps I (ret a).
Proof. intros s H; exact H. Qed.

Lemma keeps_raise {A} (e : exn) : keeps I (@raise A e).
Proof. intros s H; exact H. Qed.

Lemma keeps_get : keeps I get.
Proof. intros s H; exact H. Qed.

Lemma keeps_modify (g : State → State) : (∀ s, I s → I (g s)) → keeps I (modify g).
Proof. intros Hg s H. apply Hg, H. Qed.

Lemma keeps_bind {A B} (m : M A) (k : A → M B) :
  keeps I m → (∀ a, keeps I (k a)) → keeps I (bind m k).
Proof.
  intros Hm Hk s H. unfold bind. specialize (Hm s H).
  destruct (m s) as [[a|e] s1]; cbn [snd] in *; [apply Hk, Hm|exact Hm].
Qed.

Lemma keeps_try_except {A} (body : M A) catches (handler : exn → M A) :
  keeps I body → (∀ e, keeps I (handler e)) → keeps I (try_except body catches handler).
Proof.
  intros Hb Hh s H. unfold try_except. specialize (Hb s H).
  destruct (body s) as [[a|e] s1]; cbn [snd] in *; [exact Hb|].
  destruct (catches e); [apply Hh, Hb|exact Hb].
Qed.

Lemma keeps_try_finally {A} (body : M A) (cleanup : M unit) :
  keeps I body → keeps I cleanup → keeps I (try_finally body cleanup).
Proof.
  intros Hb Hc s H. unfold try_finally. specialize (Hb s H).
  destruct (body s) as [r s1]. cbn [snd] in Hb. specialize (Hc s1 Hb).
  destruct (cleanup s1) as [[u|e] s2]; exact Hc.
Qed.

Lemma keeps_for_each {A} (l : list A) (body : A → M unit) :
  (∀ a, keeps I (body a)) → keeps I (for_each l body).
Proof.
  intros Hb. induction l as [|a l IH]; cbn [for_each].
  - apply keeps_ret.
  - apply keeps_bind; [apply Hb|]. intros _. exact IH.
Qed.

Lemma keeps_mapM {A B} (g : A → M B) (l : list A) :
  (∀ a, keeps I (g a)) → keeps I (mapM g l).
Proof.
  intros Hg. induction l as [|a l IH]; cbn [mapM].
  - apply keeps_ret.
  - apply keeps_bind; [apply Hg|]. intros b.
    apply keeps_bind; [exact IH|]. intros bs. apply keeps_ret.
Qed.

End Keeps.

Section Additive.

Variable d0 : Database.

Lemma extending_outside_world : keeps (extending d0) outside_world.
Proof.
  intros s H. unfold outside_world. destruct (faults s) as [|[e|] rest]; exact H.
Qed.

Lemma extending_emit ev : keeps (extending d0) (emit ev).
Proof. intros s H. exact H. Qed.

Lemma extending_close : keeps (extending d0) close.
Proof.
  intros s H. pose proof H as [Hdb Htx]. unfold close.
  destruct (tx s) as [before|] eqn:E; [|exact H].
  split; [apply Htx; reflexivity|]. intros b Hb. discriminate Hb.
Qed.

Lemma extending_conn_begin : keeps (extending d0) conn_begin.
Proof.
  unfold conn_begin. apply keeps_bind; [apply extending_emit|]. intros _.
  apply keeps_modify. intros s [Hdb _]. split; [exact Hdb|].
  intros b [= <-]. exact Hdb.
Qed.

Lemma extending_trans_commit : keeps (extending d0) trans_commit.
Proof.
  unfold trans_commit. apply keeps_bind; [apply extending_outside_world|]. intros _.
  apply keeps_bind; [apply extending_emit|]. intros _.
  apply keeps_modify. intros s [Hdb _]. split; [exact Hdb|]. intros b Hb. discriminate Hb.
Qed.

Lemma extending_trans_rollback : keeps (extending d0) trans_rollback.
Proof.
  unfold trans_rollback. apply keeps_bind; [apply extending_emit|]. intros _.
  apply keeps_modify. intros s H. pose proof H as [Hdb Htx].
  destruct (tx s) as [before|] eqn:E; [|exact H].
  split; [apply Htx; reflexivity|]. intros b Hb. discriminate Hb.
Qed.

Lemma extending_table_create table : keeps (extending d0) (table_create table).
Proof.
  intros s H. unfold table_create, bind, get.
  pose proof (extending_outside_world s H) as H1.
  destruct (outside_world s) as [[[]|e] s1]; cbn [snd] in *; [|exact H1].
  destruct (db s1 !! tbl_name table) eqn:E; [exact H1|].
  destruct (create_refusal s1 table); [exact H1|].
  destruct H1 as [Hdb Htx]. split; [|exact Htx]. unfold modify. state_simpl.
  eapply extends_trans; [exact Hdb|]. apply extends_insert_new, E.
Qed.

Lemma extending_get_columns name : keeps (extending d0) (get_columns name).
Proof.
  unfold get_columns. apply keeps_bind; [apply extending_outside_world|]. intros _.
  apply keeps_bind; [apply keeps_get|]. intros s.
  destruct (db s !! name); [apply keeps_ret|apply keeps_raise].
Qed.

Lemma extending_alter_table_add_column t c ty :
  keeps (extending d0) (alter_table_add_column t c ty).
Proof.
  unfold alter_table_add_column.
  apply keeps_bind; [apply extending_outside_world|]. intros _.
  intros s H. unfold bind, get.
  destruct (db s !! t) as [tbl|] eqn:E; [|exact H].
  destruct (bool_decide _); [exact H|].
  destruct (negb _); [exact H|].
  unfold modify. cbn [snd]. destruct H as [Hdb Htx]. split; [|exact Htx].
  state_simpl. eapply extends_trans; [exact Hdb|]. apply extends_add_column, E.
Qed.

Lemma extending_global globals name : keeps (extending d0) (global globals name).
Proof. unfold global. destruct (bool_decide _); [apply keeps_ret|apply keeps_raise]. Qed.

Lemma extending_try_except_exc {A} globals (body : M A) handler :
  keeps (extending d0) body → (∀ e, keeps (extending d0) (handler e)) →
  keeps (extending d0) (try_except_exc_SQLAlchemyError globals body handler).
Proof.
  intros Hb Hh. unfold try_except_exc_SQLAlchemyError.
  apply keeps_try_except; [exact Hb|]. intros e.
  apply keeps_bind; [apply extending_global|]. intros _.
  destruct (is_SQLAlchemyError e); [apply Hh|apply keeps_raise].
Qed.

Lemma extending_add_if_missing globals name existing column :
  keeps (extending d0) (add_if_missing globals name existing column).
Proof.
  unfold add_if_missing, print. destruct (bool_decide _); [|apply extending_emit].
  apply keeps_bind; [apply extending_global|]. intros _.
  apply keeps_bind; [apply extending_emit|]. intros _.
  apply keeps_bind; [apply extending_conn_begin|]. intros _.
  apply extending_try_except_exc.
  - apply keeps_bind; [apply extending_alter_table_add_column|]. intros _.
    apply extending_trans_commit.
  - intros e. apply keeps_bind; [apply extending_emit|]. intros _.
    apply extending_trans_rollback.
Qed.

(** A [with engine.connect()] block whose body keeps the invariant takes
    a database that extends [d0] to one that does. *)
Lemma extends_with_engine_connect {A} (body : M A) (s : State) :
  keeps (extending d0) body →
  extends d0 (db s) → extends d0 (db (snd (with_engine_connect body s))).
Proof.
  intros Hb Hdb. unfold with_engine_connect, bind, outside_world, modify.
  assert (Hbody : ∀ s1, db s1 = db s →
            extends d0 (db (snd (try_finally body close (set_tx None s1))))).
  { intros s1 H1.
    apply (keeps_try_finally (extending d0) body close Hb extending_close).
    split; [state_simpl; rewrite H1; exact Hdb|]. intros b Hcontra. discriminate Hcontra. }
  destruct (faults s) as [|[e|] rest]; cbn [snd]; try exact Hdb.
  - specialize (Hbody s eq_refl). destruct (try_finally _ _ _); exact Hbody.
  - specialize (Hbody (set_faults rest s) eq_refl). destruct (try_finally _ _ _); exact Hbody.
Qed.

Lemma extends_create_or_update_one globals (schema : TableSpec) :
  keeps (λ s, extends d0 (db s)) (create_or_update_one globals schema).
Proof.
  unfold create_or_update_one.
  apply keeps_bind.
  { intros s H. destruct (mapM_build_column_pure (schema_columns schema) s) as [r ->].
    exact H. }
  intros columns. apply keeps_bind; [intros s H; exact H|]. intros table.
  apply keeps_bind; [apply keeps_modify; intros s H; exact H|]. intros _.
  apply keeps_bind.
  - intros s H. apply extends_with_engine_connect; [|exact H].
    apply keeps_bind; [apply extending_conn_begin|]. intros _.
    apply extending_try_except_exc.
    + apply keeps_bind; [apply extending_table_create|]. intros _.
      apply keeps_bind; [apply extending_trans_commit|]. intros _. apply extending_emit.
    + intros e. apply keeps_bind; [apply extending_emit|]. intros _.
      apply extending_trans_rollback.
  - intros _ s H. apply extends_with_engine_connect; [|exact H].
    apply keeps_bind; [apply extending_global|]. intros _.
    apply keeps_bind; [apply extending_get_columns|]. intros existing.
    apply keeps_bind; [apply extending_emit|]. intros _.
    apply keeps_for_each. intros c. apply extending_add_if_missing.
Qed.

End Additive.

(** X9. Reconciliation only adds, whatever names the module binds and
    whatever fails: after [create_or_update_table], every table that
    existed still exists, with the rows it had, and with the columns it
    had, unchanged and in the same order, at the head of its columns. *)
Theorem create_or_update_table_only_adds globals (schemas : list TableSpec) (s : State) :
  extends (db s) (db (snd (create_or_update_table globals schemas s))).
Proof.
  unfold create_or_update_table.
  apply (keeps_for_each (λ s0, extends (db s) (db s0))).
  - intros schema. apply extends_create_or_update_one.
  - apply extends_refl.
Qed.

(** ** The bulk inserter, row by row *)

Lemma gained_nil (name : string) (d : Database) : gained name [] d d.
Proof.
  split; [reflexivity|]. destruct (d !! name) as [t|] eqn:E; [|auto].
  rewrite app_nil_r. destruct t; reflexivity.
Qed.

Lemma gained_trans (name : string) (ins1 ins2 : list Row) (d1 d2 d3 : Database) :
  gained name ins1 d1 d2 → gained name ins2 d2 d3 → gained name (ins1 ++ ins2) d1 d3.
Proof.
  intros [Ho1 H1] [Ho2 H2]. split.
  - intros other Hne. rewrite Ho2, Ho1 by exact Hne. reflexivity.
  - destruct (d1 !! name) as [t|].
    + rewrite H1 in H2. cbn [t_columns t_rows] in H2. rewrite H2, app_assoc. reflexivity.
    + destruct H1 as [H1 ->]. rewrite H1 in H2. exact H2.
Qed.

(** One insert statement: the table gains the row, or nothing when the
    row conflicts or the statement fails. *)
Lemma execute_insert_run (name : string) (item : Row) (s : State) :
  ∃ r s' inserted,
    execute_insert name item s = (r, s')
    ∧ gained name inserted (db s) (db s')
    ∧ (inserted = [] ∨ (inserted = [item] ∧ r = Ok ()))
    ∧ tx s' = tx s ∧ tables s' = tables s ∧ events s' = events s
    ∧ (faults s = [] → faults s' = []).
Proof.
  unfold execute_insert. unfold bind at 1.
  match goal with |- context [bind get ?k] => set (store := bind get k) end.
  assert (Hstep : ∀ s0, db s0 = db s → tx s0 = tx s → tables s0 = tables s →
            events s0 = events s → (faults s = [] → faults s0 = []) →
            ∃ r s' inserted,
              store s0 = (r, s')
              ∧ gained name inserted (db s) (db s')
              ∧ (inserted = [] ∨ (inserted = [item] ∧ r = Ok ()))
              ∧ tx s' = tx s ∧ tables s' = tables s ∧ events s' = events s
              ∧ (faults s = [] → faults s' = [])).
  { intros s0 Hdb Htx Htb Hev Hf. subst store. unfold bind, get, modify, raise.
    rewrite Hdb.
    destruct (db s !! name) as [t|] eqn:Et.
    - unfold insert_row_on_conflict_do_nothing.
      destruct (insertable t item).
      + destruct (conflicts t item).
        * exists (Ok ()), (set_db (<[name := t]> (db s)) s0), [].
          split; [reflexivity|]. state_simpl. rewrite insert_id by exact Et.
          repeat split; auto using gained_nil. apply gained_nil.
        * exists (Ok ()), (set_db (<[name := append_row t item]> (db s)) s0), [item].
          split; [reflexivity|]. state_simpl. repeat split; auto.
          -- intros other Hne. apply lookup_insert_ne. congruence.
          -- rewrite Et, lookup_insert_eq. reflexivity.
      + exists (Raise e), s0, []. rewrite Hdb. repeat split; auto using gained_nil.
        apply gained_nil.
    - eexists _, s0, []. rewrite Hdb. repeat split; auto using gained_nil.
      apply gained_nil. }
  unfold outside_world.
  destruct (faults s) as [|[e|] rest] eqn:Ef.
  - apply Hstep; auto.
  - exists (Raise e), (set_faults rest s), []. repeat split; auto using gained_nil.
    + apply gained_nil.
    + discriminate.
  - apply (Hstep (set_faults rest s)); auto. discriminate.
Qed.


Lemma for_each_execute_insert_run (name : string) (columns : list string) (data : list Row) :
  ∀ s, ∃ r s' inserted,
    for_each data (λ item, execute_insert name (complete_item columns item)) s = (r, s')
    ∧ gained name inserted (db s) (db s')
    ∧ inserted `sublist_of` (complete_item columns <$> data)
    ∧ tx s' = tx s ∧ tables s' = tables s ∧ events s' = events s
    ∧ (faults s = [] → faults s' = []).
Proof.
  induction data as [|item data IH]; intros s; cbn [for_each].
  - exists (Ok ()), s, []. repeat split; auto using gained_nil. apply gained_nil.
  - unfold bind.
    destruct (execute_insert_run name (complete_item columns item) s)
      as (r1 & s1 & ins1 & -> & Hg1 & Hins1 & Htx1 & Htb1 & Hev1 & Hf1).
    destruct r1 as [[]|e].
    + destruct (IH s1) as (r2 & s2 & ins2 & -> & Hg2 & Hsub2 & Htx2 & Htb2 & Hev2 & Hf2).
      exists r2, s2, (ins1 ++ ins2). split; [reflexivity|].
      split; [eapply gained_trans; eassumption|].
      split.
      { rewrite fmap_cons. destruct Hins1 as [->|[-> _]]; cbn [app].
        - apply sublist_cons. exact Hsub2.
        - apply sublist_skip. exact Hsub2. }
      repeat split; try congruence. auto.
    + exists (Raise e), s1, ins1. split; [reflexivity|]. split; [exact Hg1|].
      split; [|repeat split; auto].
      destruct Hins1 as [->|[_ Hcontra]]; [apply sublist_nil_l|discriminate Hcontra].
Qed.

(** The call as a whole, on a registered table. *)
Lemma bulk_insert_data_run (name : string) (table : Table) (data : list Row) (s : State) :
  tables s !! name = Some table →
  ∃ r s' inserted,
    bulk_insert_data name data s = (r, s')
    ∧ gained name inserted (db s) (db s')
    ∧ inserted `sublist_of` (complete_item (declared_columns table) <$> data)
    ∧ tables s' = tables s ∧ events s' = events s
    ∧ (faults s = [] → faults s' = [] ∧ tx s' = None
       ∧ (r, s') = for_each data
                     (λ item, execute_insert name
                                (complete_item (declared_columns table) item))
                     (set_tx None s)).
Proof.
  intros Htable. unfold bulk_insert_data, bind at 1, get. rewrite Htable.
  fold (declared_columns table).
  unfold with_engine_connect, bind, outside_world, modify, try_finally.
  assert (Hbody : ∀ s0, db s0 = db s → tables s0 = tables s → events s0 = events s →
            ∃ r s' inserted,
              (let (r, s') :=
                 for_each data
                   (λ item, execute_insert name (complete_item (declared_columns table) item))
                   (set_tx None s0) in
               match close s' with
               | (Ok _, s'') => (r, s'')
               | (Raise e, s'') => (Raise e, s'')
               end) = (r, s')
              ∧ gained name inserted (db s) (db s')
              ∧ inserted `sublist_of` (complete_item (declared_columns table) <$> data)
              ∧ tables s' = tables s ∧ events s' = events s
              ∧ (faults s0 = [] → faults s' = [] ∧ tx s' = None
                 ∧ (r, s') = for_each data
                               (λ item, execute_insert name
                                          (complete_item (declared_columns table) item))
                               (set_tx None s0))).
  { intros s0 Hdb Htb Hev.
    destruct (for_each_execute_insert_run name (declared_columns table) data (set_tx None s0))
      as (r & s1 & ins & Hrun & Hg & Hsub & Htx & Htb1 & Hev1 & Hf).
    rewrite Hrun. state_simpl. unfold close. rewrite Htx.
    exists r, s1, ins. split; [reflexivity|]. rewrite <- Hdb.
    split; [exact Hg|]. split; [exact Hsub|]. split; [congruence|]. split; [congruence|].
    intros Hf0. split; [apply Hf, Hf0|]. split; [exact Htx|]. reflexivity. }
  destruct (faults s) as [|[e|] rest] eqn:Ef.
  - destruct (Hbody s eq_refl eq_refl eq_refl) as (r & s' & ins & Hrun & Hrest).
    exists r, s', ins. split; [exact Hrun|]. rewrite Ef in Hrest. exact Hrest.
  - exists (Raise e), (set_faults rest s), []. split; [reflexivity|].
    split; [apply gained_nil|]. split; [apply sublist_nil_l|].
    split; [reflexivity|]. split; [reflexivity|]. intros Hcontra. discriminate Hcontra.
  - destruct (Hbody (set_faults rest s) eq_refl eq_refl eq_refl)
      as (r & s' & ins & Hrun & Hg & Hsub & Htb & Hev & _).
    exists r, s', ins. split; [exact Hrun|]. split; [exact Hg|]. split; [exact Hsub|].
    split; [exact Htb|]. split; [exact Hev|]. intros Hcontra. discriminate Hcontra.
Qed.

(** X10. [bulk_insert_data] on a registered table only appends to that
    table: its columns and the rows it had stay as they are; the rows it
    gains are complete items of the data, in the order of the data, each
    at most once per item; every other table, [self.tables] and the log
    are untouched, whether the call returns or raises. *)
Theorem bulk_insert_data_only_appends
    (name : string) (table : Table) (data : list Row) (s s' : State) r :
  tables s !! name = Some table →
  bulk_insert_data name data s = (r, s') →
  ∃ inserted,
    gained name inserted (db s) (db s')
    ∧ inserted `sublist_of` (complete_item (declared_columns table) <$> data)
    ∧ tables s' = tables s ∧ events s' = events s.
Proof.
  intros Htable Hrun.
  destruct (bulk_insert_data_run name table data s Htable)
    as (r0 & s0 & ins & Hrun0 & Hg & Hsub & Htb & Hev & _).
  rewrite Hrun in Hrun0. injection Hrun0 as <- <-. eauto.
Qed.

(** ** Inserting the same rows again *)

Lemma same_key_refl (pk : list string) (r : Row) :
  existsb (λ c, bool_decide (cell r c = VNone)) pk = false → same_key pk r r = true.
Proof.
  unfold same_key. induction pk as [|c pk IH]; cbn [existsb forallb]; [reflexivity|].
  intros [Hc Hpk]%orb_false_iff. rewrite IH by exact Hpk.
  apply bool_decide_eq_false in Hc. rewrite sql_eq_refl by exact Hc. reflexivity.
Qed.

Lemma insertable_columns (t t' : SqlTable) (r : Row) :
  t_columns t' = t_columns t → insertable t' r = insertable t r.
Proof. unfold insertable, column_names, pk_columns. intros ->. reflexivity. Qed.

Lemma conflicts_more_rows (t t' : SqlTable) (r : Row) (more : list Row) :
  t_columns t' = t_columns t → t_rows t' = t_rows t ++ more →
  conflicts t r = true → conflicts t' r = true.
Proof.
  unfold conflicts, pk_columns. intros -> ->.
  destruct (dbc_name <$> _); [discriminate|].
  rewrite existsb_app. intros ->. reflexivity.
Qed.

Lemma conflicts_after_insert (t : SqlTable) (r : Row) :
  pk_columns t ≠ [] → insertable t r = Ok () →
  conflicts (if conflicts t r then t else append_row t r) r = true.
Proof.
  intros Hpk Hins. destruct (conflicts t r) eqn:Hc; [exact Hc|].
  unfold conflicts, append_row, pk_columns in *. cbn [t_columns t_rows].
  unfold insertable, pk_columns in Hins.
  destruct (dbc_name <$> _) as [|c pk] eqn:Epk; [congruence|].
  rewrite existsb_app. apply orb_true_iff. right. cbn [existsb].
  rewrite same_key_refl; [reflexivity|].
  destruct (negb _); [discriminate Hins|].
  destruct (existsb _ (c :: pk)); [discriminate Hins|reflexivity].
Qed.

(** A statement that returned: the table existed, the row passed the
    checks of the server, and it is in the table unless it conflicted. *)
Lemma execute_insert_ok (name : string) (item : Row) (s s' : State) :
  execute_insert name item s = (Ok (), s') →
  ∃ t, db s !! name = Some t ∧ insertable t item = Ok ()
       ∧ db s' = <[name := if conflicts t item then t else append_row t item]> (db s).
Proof.
  unfold execute_insert. unfold bind at 1.
  assert (Hstore : ∀ s0, db s0 = db s →
            (s1 <- get ;;
             match db s1 !! name with
             | Some t =>
                 match insert_row_on_conflict_do_nothing t item with
                 | Ok t' => modify (set_db (<[name := t']> (db s1)))
                 | Raise e => raise e
                 end
             | None => raise (SQLAlchemyError "relation does not exist")
             end) s0 = (Ok (), s') →
            ∃ t, db s !! name = Some t ∧ insertable t item = Ok ()
                 ∧ db s' = <[name := if conflicts t item then t else append_row t item]> (db s)).
  { intros s0 Hdb. unfold bind, get, modify, raise. rewrite Hdb.
    destruct (db s !! name) as [t|]; [|discriminate].
    unfold insert_row_on_conflict_do_nothing.
    destruct (insertable t item) as [[]|e] eqn:Hins; [|discriminate].
    destruct (conflicts t item) eqn:Hc; intros [= <-]; exists t; rewrite Hc;
      (split; [reflexivity|]; split; [exact Hins|reflexivity]). }
  unfold outside_world.
  destruct (faults s) as [|[e|] rest]; [apply Hstore; reflexivity|discriminate|].
  apply Hstore. reflexivity.
Qed.

Lemma for_each_execute_insert_ok (name : string) (columns : list string) (data : list Row) :
  ∀ s s' t,
    for_each data (λ item, execute_insert name (complete_item columns item)) s = (Ok (), s') →
    db s !! name = Some t → pk_columns t ≠ [] →
    ∃ t' more,
      db s' !! name = Some t' ∧ t_columns t' = t_columns t ∧ t_rows t' = t_rows t ++ more
      ∧ ∀ item, item ∈ data →
          insertable t' (complete_item columns item) = Ok ()
          ∧ conflicts t' (complete_item columns item) = true.
Proof.
  induction data as [|item data IH]; intros s s' t; cbn [for_each].
  - intros [= <-] Ht _. exists t, []. rewrite app_nil_r.
    split; [exact Ht|]. split; [reflexivity|]. split; [reflexivity|].
    intros item Hin. inversion Hin.
  - unfold bind.
    destruct (execute_insert name (complete_item columns item) s) as [[[]|e] s1] eqn:H1;
      [|discriminate].
    intros Hrest Ht Hpk.
    apply execute_insert_ok in H1 as (t0 & Ht0 & Hins & Hdb1).
    assert (t0 = t) as -> by congruence.
    set (t1 := if conflicts t (complete_item columns item) then t
               else append_row t (complete_item columns item)) in *.
    assert (Hcols1 : t_columns t1 = t_columns t) by (subst t1; destruct (conflicts _ _); reflexivity).
    assert (Hrows1 : ∃ m, t_rows t1 = t_rows t ++ m).
    { subst t1. destruct (conflicts _ _); [exists []; symmetry; apply app_nil_r|].
      eexists; reflexivity. }
    destruct Hrows1 as [m1 Hrows1].
    destruct (IH s1 s' t1 Hrest) as (t' & more & Ht' & Hcols' & Hrows' & Hall).
    { rewrite Hdb1. apply lookup_insert_eq. }
    { unfold pk_columns in *. rewrite Hcols1. exact Hpk. }
    exists t', (m1 ++ more). split; [exact Ht'|]. split; [congruence|].
    split; [rewrite Hrows', Hrows1, app_assoc; reflexivity|].
    intros it [->|Hin]%elem_of_cons; [|apply Hall, Hin].
    split.
    + rewrite (insertable_columns t t') by congruence. exact Hins.
    + apply (conflicts_more_rows t1 t' _ more Hcols' Hrows').
      apply conflicts_after_insert; assumption.
Qed.

Lemma set_db_same (s : State) : set_db (db s) s = s.
Proof. apply State_eq; reflexivity. Qed.

Lemma set_tx_same (s : State) : tx s = None → set_tx None s = s.
Proof. intros H. apply State_eq; auto. Qed.

Lemma for_each_execute_insert_again (name : string) (columns : list string)
    (data : list Row) (s : State) (t : SqlTable) :
  faults s = [] → db s !! name = Some t →
  (∀ item, item ∈ data →
     insertable t (complete_item columns item) = Ok ()
     ∧ conflicts t (complete_item columns item) = true) →
  for_each data (λ item, execute_insert name (complete_item columns item)) s = (Ok (), s).
Proof.
  intros Hf Ht. induction data as [|item data IH]; intros Hall; cbn [for_each]; [reflexivity|].
  destruct (Hall item ltac:(left)) as [Hins Hc].
  unfold bind at 1.
  assert (H1 : execute_insert name (complete_item columns item) s = (Ok (), s)).
  { unfold execute_insert, bind, outside_world, get, modify.
    rewrite Hf, Ht. unfold insert_row_on_conflict_do_nothing. rewrite Hins, Hc.
    rewrite insert_id by exact Ht. rewrite set_db_same. reflexivity. }
  rewrite H1. apply IH. intros it Hit. apply Hall. right. exact Hit.
Qed.

(** X11. Inserting the same rows again changes nothing.  When
    [bulk_insert_data] returned, the table it wrote has a primary key and
    nothing fails outside, the same call again returns and leaves the
    whole state as it was: every row meets the row stored for its key
    and is skipped. *)
Theorem bulk_insert_data_again
    (name : string) (table : Table) (data : list Row) (s s1 : State) (t1 : SqlTable) :
  tables s !! name = Some table →
  bulk_insert_data name data s = (Ok (), s1) →
  db s1 !! name = Some t1 → pk_columns t1 ≠ [] →
  faults s1 = [] →
  bulk_insert_data name data s1 = (Ok (), s1).
Proof.
  intros Htable Hrun Ht1 Hpk Hf1.
  assert (Hfirst : ∃ s0, db s0 = db s ∧ tables s0 = tables s ∧
            for_each data (λ item, execute_insert name
                                     (complete_item (declared_columns table) item))
              (set_tx None s0) = (Ok (), s1) ∧ tx s1 = None).
  { revert Hrun. unfold bulk_insert_data, bind at 1, get. rewrite Htable.
    fold (declared_columns table).
    unfold with_engine_connect, bind, outside_world, modify, try_finally.
    assert (Hbody : ∀ s0,
              (let (r, s') :=
                 for_each data
                   (λ item, execute_insert name (complete_item (declared_columns table) item))
                   (set_tx None s0) in
               match close s' with
               | (Ok _, s'') => (r, s'')
               | (Raise e, s'') => (Raise e, s'')
               end) = (Ok (), s1) →
              for_each data (λ item, execute_insert name
                                       (complete_item (declared_columns table) item))
                (set_tx None s0) = (Ok (), s1) ∧ tx s1 = None).
    { intros s0.
      destruct (for_each_execute_insert_run name (declared_columns table) data (set_tx None s0))
        as (r & s' & ins & Hr & _ & _ & Htx & _).
      rewrite Hr. unfold close. rewrite Htx. state_simpl. intros [= -> ->]. auto. }
    destruct (faults s) as [|[e|] rest]; [|discriminate|].
    - intros H. apply Hbody in H as [H Htx]. exists s. auto.
    - intros H. apply Hbody in H as [H Htx]. exists (set_faults rest s). auto. }
  destruct Hfirst as (s0 & Hdb0 & Htb0 & Hloop & Htx1).
  assert (Htables1 : tables s1 = tables s).
  { destruct (for_each_execute_insert_run name (declared_columns table) data (set_tx None s0))
      as (r & s' & ins & Hr & _ & _ & _ & Htb & _).
    rewrite Hloop in Hr. injection Hr as <- <-. rewrite Htb. exact Htb0. }
  assert (Hall : ∀ item, item ∈ data →
            insertable t1 (complete_item (declared_columns table) item) = Ok ()
            ∧ conflicts t1 (complete_item (declared_columns table) item) = true).
  { destruct (for_each_execute_insert_run name (declared_columns table) data (set_tx None s0))
      as (r & s' & ins & Hr & [_ Hg] & _).
    rewrite Hloop in Hr. injection Hr as <- <-. state_simpl.
    destruct (db s0 !! name) as [t|] eqn:Et.
    - rewrite Ht1 in Hg. injection Hg as ->.
      destruct (for_each_execute_insert_ok name (declared_columns table) data
                  (set_tx None s0) s1 t Hloop Et) as (t' & more & Ht' & _ & _ & Hall).
      { exact Hpk. }
      rewrite Ht1 in Ht'. injection Ht' as <-. exact Hall.
    - destruct Hg as [Hg _]. congruence. }
  unfold bulk_insert_data, bind at 1, get. rewrite Htables1, Htable.
  fold (declared_columns table).
  unfold with_engine_connect, bind, outside_world, modify, try_finally.
  rewrite Hf1, (set_tx_same s1 Htx1).
  rewrite (for_each_execute_insert_again name _ data s1 t1 Hf1 Ht1 Hall).
  unfold close. rewrite Htx1. reflexivity.
Qed.

(** ** Keys stay unique *)

Lemma sql_eq_sym (a b : value) : sql_eq a b = sql_eq b a.
Proof.
  destruct a, b; simpl; try reflexivity;
    apply eq_true_iff_eq; rewrite !bool_decide_eq_true; split; congruence.
Qed.

Lemma same_key_sym (pk : list string) (r r' : Row) : same_key pk r r' = same_key pk r' r.
Proof.
  unfold same_key. induction pk as [|c pk IH]; cbn [forallb]; [reflexivity|].
  rewrite IH, sql_eq_sym. reflexivity.
Qed.

Lemma unique_keys_append (t : SqlTable) (r : Row) :
  pk_columns t ≠ [] → unique_keys t → conflicts t r = false →
  unique_keys (append_row t r).
Proof.
  intros Hpk Hu Hc. unfold conflicts in Hc.
  assert (Hnone : ∀ r', r' ∈ t_rows t → same_key (pk_columns t) r r' = false).
  { destruct (pk_columns t) as [|c pk] eqn:E; [congruence|].
    intros r' Hin. destruct (same_key (c :: pk) r r') eqn:Hk; [|reflexivity].
    rewrite <- Hc. symmetry. apply existsb_exists. exists r'.
    split; [apply list_elem_of_In, Hin|exact Hk]. }
  intros i j r1 r2 H1 H2 Hk. unfold append_row, pk_columns in *. cbn [t_rows t_columns] in *.
  destruct (decide (i < length (t_rows t))%nat) as [Hi|Hi];
  destruct (decide (j < length (t_rows t))%nat) as [Hj|Hj].
  - rewrite lookup_app_l in H1, H2 by assumption. eapply Hu; eassumption.
  - rewrite lookup_app_l in H1 by assumption. rewrite lookup_app_r in H2 by lia.
    apply list_lookup_singleton_Some in H2 as [_ <-].
    rewrite same_key_sym, Hnone in Hk; [discriminate|].
    eapply list_elem_of_lookup_2; eassumption.
  - rewrite lookup_app_l in H2 by assumption. rewrite lookup_app_r in H1 by lia.
    apply list_lookup_singleton_Some in H1 as [_ <-].
    rewrite Hnone in Hk; [discriminate|].
    eapply list_elem_of_lookup_2; eassumption.
  - rewrite lookup_app_r in H1, H2 by lia.
    apply list_lookup_singleton_Some in H1 as [H1 _], H2 as [H2 _]. lia.
Qed.

Lemma for_each_execute_insert_unique (name : string) (columns : list string)
    (data : list Row) :
  ∀ s s' r t,
    for_each data (λ item, execute_insert name (complete_item columns item)) s = (r, s') →
    db s !! name = Some t → pk_columns t ≠ [] → unique_keys t →
    ∃ t', db s' !! name = Some t' ∧ pk_columns t' = pk_columns t ∧ unique_keys t'.
Proof.
  induction data as [|item data IH]; intros s s' r t; cbn [for_each].
  - intros [= <- <-] Ht _ Hu. eauto.
  - unfold bind. intros Hrun Ht Hpk Hu.
    destruct (execute_insert name (complete_item columns item) s) as [[[]|e] s1] eqn:H1.
    + apply execute_insert_ok in H1 as (t0 & Ht0 & Hins & Hdb1).
      assert (t0 = t) as -> by congruence.
      destruct (IH s1 s' r
                  (if conflicts t (complete_item columns item) then t
                   else append_row t (complete_item columns item)) Hrun)
        as (t' & Ht' & Hpk' & Hu').
      * rewrite Hdb1. apply lookup_insert_eq.
      * destruct (conflicts _ _); exact Hpk.
      * destruct (conflicts t (complete_item columns item)) eqn:Hc; [exact Hu|].
        apply unique_keys_append; assumption.
      * exists t'. split; [exact Ht'|]. split; [|exact Hu'].
        rewrite Hpk'. destruct (conflicts _ _); reflexivity.
    + injection Hrun as <- <-.
      destruct (execute_insert_run name (complete_item columns item) s)
        as (r1 & s1' & ins & Hr & [_ Hg] & Hins & _).
      rewrite H1 in Hr. injection Hr as <- <-.
      destruct Hins as [->|[_ Hcontra]]; [|discriminate Hcontra].
      rewrite Ht, app_nil_r in Hg. exists t. split; [|auto].
      rewrite Hg. destruct t; reflexivity.
Qed.

(** X12. With a primary key on the table, [bulk_insert_data] never
    stores two rows with the same key: when no two rows of the table
    agreed on the primary key before the call, none do after it, whether
    the call returns or raises. *)
Theorem bulk_insert_data_keeps_keys_unique
    (name : string) (table : Table) (data : list Row) (s s' : State) r (t : SqlTable) :
  tables s !! name = Some table →
  db s !! name = Some t → pk_columns t ≠ [] → unique_keys t →
  bulk_insert_data name data s = (r, s') →
  ∃ t', db s' !! name = Some t' ∧ unique_keys t'.
Proof.
  intros Htable Ht Hpk Hu. unfold bulk_insert_data, bind at 1, get. rewrite Htable.
  fold (declared_columns table).
  unfold with_engine_connect, bind, outside_world, modify, try_finally.
  assert (Hbody : ∀ s0, db s0 = db s →
            (let (r, s') :=
               for_each data
                 (λ item, execute_insert name (complete_item (declared_columns table) item))
                 (set_tx None s0) in
             match close s' with
             | (Ok _, s'') => (r, s'')
             | (Raise e, s'') => (Raise e, s'')
             end) = (r, s') →
            ∃ t', db s' !! name = Some t' ∧ unique_keys t').
  { intros s0 Hdb.
    destruct (for_each_execute_insert_run name (declared_columns table) data (set_tx None s0))
      as (r1 & s1 & ins & Hr & _ & _ & Htx & _).
    rewrite Hr. unfold close. rewrite Htx. state_simpl. intros [= <- <-].
    eapply for_each_execute_insert_unique in Hr as (t' & Ht' & _ & Hu'); eauto.
    state_simpl. rewrite Hdb. exact Ht. }
  destruct (faults s) as [|[e|] rest].
  - apply Hbody. reflexivity.
  - intros [= <- <-]. eauto.
  - apply Hbody. reflexivity.
Qed.

(** ** Inserting in two calls *)

Lemma for_each_app {A} (l1 l2 : list A) (body : A → M unit) (s : State) :
  for_each (l1 ++ l2) body s = (for_each l1 body ;;; for_each l2 body) s.
Proof.
  revert s. induction l1 as [|a l1 IH]; intros s; cbn [app for_each].
  - reflexivity.
  - unfold bind. destruct (body a s) as [[[]|e] s1]; [|reflexivity].
    rewrite IH. reflexivity.
Qed.

(** X13. With nothing failing outside, one call of [bulk_insert_data] on
    the rows [first ++ second] does what a call on [first] followed, when
    it returns, by a call on [second] does: same result, same final
    state.  The rows of [first] that were stored stay stored when a row
    of [second] is refused. *)
Theorem bulk_insert_data_app
    (name : string) (table : Table) (first second : list Row) (s : State) :
  tables s !! name = Some table →
  faults s = [] →
  bulk_insert_data name (first ++ second) s
  = (bulk_insert_data name first ;;; bulk_insert_data name second) s.
Proof.
  intros Htable Hf.
  destruct (bulk_insert_data_run name table (first ++ second) s Htable)
    as (r & s' & ins & -> & _ & _ & _ & _ & Hwhole).
  destruct (Hwhole Hf) as (_ & _ & ->).
  unfold bind.
  destruct (bulk_insert_data_run name table first s Htable)
    as (r1 & s1 & ins1 & -> & _ & _ & Htb1 & _ & Hfirst).
  destruct (Hfirst Hf) as (Hf1 & Htx1 & Hrun1).
  rewrite for_each_app. unfold bind. rewrite <- Hrun1.
  destruct r1 as [[]|e]; [|reflexivity].
  destruct (bulk_insert_data_run name table second s1)
    as (r2 & s2 & ins2 & -> & _ & _ & _ & _ & Hsecond).
  { rewrite Htb1. exact Htable. }
  destruct (Hsecond Hf1) as (_ & _ & ->).
  rewrite (set_tx_same s1 Htx1). reflexivity.
Qed.

(** ** Examples for the table updater *)

Lemma integer_spec_buildable name pk : buildable (integer_spec name pk).
Proof.
  split; [|discriminate]. apply list_elem_of_In. vm_compute. tauto.
Qed.




Lemma create_or_update_table_unknown_type_witness :
  create_or_update_table module_globals misspelt_schema blank
  = (Raise (KeyError "Txt"), blank).
Proof.
  apply (create_or_update_table_unknown_type module_globals
           {| schema_name := "documents";
              schema_columns :=
                [integer_spec "id" true;
                 {| col_name := "title"; col_type := "Txt"; col_timezone := false;
                    col_primary_key := false; col_foreign_key := None |}] |}
           [] [integer_spec "id" true] []
           {| col_name := "title"; col_type := "Txt"; col_timezone := false;
              col_primary_key := false; col_foreign_key := None |} blank).
  - reflexivity.
  - repeat constructor. apply integer_spec_buildable.
  - intros H. apply list_elem_of_In in H. vm_compute in H.
    repeat (destruct H as [H|H]; [discriminate H|]). exact H.
Defined.

Lemma documents_registered :
  tables documents_state !! "documents"
  = Some (registered_table blank
            {| schema_name := "documents";
               schema_columns := [integer_spec "id" true; text_spec "title"] |}).
Proof. vm_compute. reflexivity. Qed.

Lemma bulk_insert_data_only_appends_witness :
  ∃ inserted,
    gained "documents" inserted (db documents_state) (db documents_filled)
    ∧ tables documents_filled = tables documents_state.
Proof.
  destruct (bulk_insert_data_only_appends "documents" _ avro_rows
              documents_state documents_filled
              (fst (bulk_insert_data "documents" avro_rows documents_state))
              documents_registered)
    as (inserted & Hg & _ & Htb & _).
  - unfold documents_filled. destruct (bulk_insert_data _ _ _); reflexivity.
  - exists inserted. split; [exact Hg|exact Htb].
Defined.

Lemma bulk_insert_data_again_witness :
  bulk_insert_data "documents" avro_rows documents_filled = (Ok (), documents_filled).
Proof.
  apply (bulk_insert_data_again "documents" _ avro_rows documents_state documents_filled
           documents_table documents_registered).
  - vm_compute. reflexivity.
  - vm_compute. reflexivity.
  - vm_compute. discriminate.
  - vm_compute. reflexivity.
Defined.

Lemma bulk_insert_data_keeps_keys_unique_witness :
  ∃ t', db documents_filled !! "documents" = Some t' ∧ unique_keys t'.
Proof.
  apply (bulk_insert_data_keeps_keys_unique "documents" _ avro_rows
           documents_state documents_filled
           (fst (bulk_insert_data "documents" avro_rows documents_state))
           {| t_columns := [int_column "id" true; text_column "title"]; t_rows := [] |}
           documents_registered).
  - vm_compute. reflexivity.
  - vm_compute. discriminate.
  - intros i j r r' Hi. destruct i; discriminate Hi.
  - unfold documents_filled. destruct (bulk_insert_data _ _ _); reflexivity.
Defined.

Lemma bulk_insert_data_app_witness :
  bulk_insert_data "documents" avro_rows documents_state
  = (bulk_insert_data "documents" [{[ "id" := VInt 1; "title" := VStr "Avro" ]}] ;;;
     bulk_insert_data "documents" [{[ "id" := VInt 2 ]}]) documents_state.
Proof.
  apply (bulk_insert_data_app "documents" _
           [{[ "id" := VInt 1; "title" := VStr "Avro" ]}] [{[ "id" := VInt 2 ]}]
           documents_state documents_registered).
  vm_compute. reflexivity.
Defined.

(** ** When the connection cannot be set up *)

(** X15. When [connect_with_connector] raises, the job does not enter
    the loop: it logs the error as "Error in main", reports a count of
    zero and ends, with the database as it was. *)
Theorem main_connect_failure BeautifulSoup (fuel : nat) (s : State)
    (e : exn) (rest : list (option exn)) :
  faults s = Some e :: rest →
  ∃ s', main BeautifulSoup fuel s = Some s'
        ∧ events s' = events s
                      ++ [LogInfo (dashes +:+ "Start of job" +:+ dashes);
                          LogError ("Error in main: " +:+ str_exn e);
                          LogInfo "Processed rows count: 0";
                          LogInfo (dashes +:+ "End of job" +:+ dashes)]
        ∧ db s' = db s ∧ faults s' = rest.
Proof.
  intros Hf. rewrite main_run. unfold connect_with_connector, outside_world, started.
  state_simpl. rewrite Hf. eexists. split; [reflexivity|].
  rewrite summary_run. unfold summary_lines. state_simpl.
  rewrite <- !app_assoc. repeat split; reflexivity.
Qed.

Lemma main_connect_failure_witness :
  ∃ s', main text_only_parser 0
          (set_faults [Some (SQLAlchemyError "no route to host")] two_documents_state)
        = Some s'
        ∧ db s' = two_documents.
Proof.
  destruct (main_connect_failure text_only_parser 0
              (set_faults [Some (SQLAlchemyError "no route to host")] two_documents_state)
              (SQLAlchemyError "no route to host") [] eq_refl)
    as (s' & Hrun & _ & Hdb & _).
  exists s'. split; [exact Hrun|exact Hdb].
Defined.


(** ** What [remove_tags] keeps of a document *)

Lemma drop_spaces_none (width : list ascii → nat) (fuel : nat) (l : list ascii) :
  width l = O → drop_spaces width fuel l = l.
Proof. intros H. destruct fuel; cbn [drop_spaces]; [reflexivity|]. rewrite H. reflexivity. Qed.

Lemma drop_spaces_done (width : list ascii → nat) (fuel : nat) : ∀ l,
  (length l ≤ fuel)%nat → width (drop_spaces width fuel l) = O ∨ drop_spaces width fuel l = [].
Proof.
  induction fuel as [|fuel IH]; intros l Hlen; cbn [drop_spaces].
  - right. destruct l; [reflexivity|cbn [length] in Hlen; lia].
  - destruct (width l) as [|w] eqn:E; [left; exact E|].
    apply IH. rewrite length_drop. lia.
Qed.

Lemma drop_spaces_suffix (width : list ascii → nat) (fuel : nat) : ∀ l,
  drop_spaces width fuel l `suffix_of` l.
Proof.
  induction fuel as [|fuel IH]; intros l; cbn [drop_spaces]; [reflexivity|].
  destruct (width l) as [|w]; [reflexivity|].
  etransitivity; [apply IH|]. apply suffix_drop.
Qed.

(** A prefix that starts with white space starts the whole string with
    it. *)
Lemma leading_space_prefix (v u : list ascii) :
  v `prefix_of` u → leading_space u = O → leading_space v = O.
Proof.
  intros [k ->]. unfold leading_space, space_width.
  destruct v as [|a [|b [|c v]]]; cbn [take app fmap list_fmap];
    [reflexivity| | |]; destruct k as [|x [|y k]]; cbn [take app fmap list_fmap];
    rewrite ?take_0; cbn [fmap list_fmap];
    repeat match goal with
           | |- context [is_space ?l] => destruct (is_space l) eqn:?; try discriminate
           end; intros; try reflexivity; try discriminate; try congruence.
Qed.

Lemma strip_idemp (s : string) : strip (strip s) = strip s.
Proof.
  unfold strip, rstrip, lstrip. cbv zeta.
  rewrite !list_ascii_of_string_of_list_ascii.
  set (u := drop_spaces leading_space _ (list_ascii_of_string s)).
  assert (Hu : leading_space u = O).
  { destruct (drop_spaces_done leading_space (length (list_ascii_of_string s))
                (list_ascii_of_string s)) as [H|H]; [lia|exact H|].
    subst u. rewrite H. reflexivity. }
  set (r := drop_spaces trailing_space _ (rev u)).
  assert (Hr : trailing_space r = O).
  { destruct (drop_spaces_done trailing_space (length (rev u)) (rev u)) as [H|H];
      [lia|exact H|]. subst r. rewrite H. reflexivity. }
  assert (Hv : leading_space (rev r) = O).
  { apply (leading_space_prefix (rev r) u); [|exact Hu].
    destruct (drop_spaces_suffix trailing_space (length (rev u)) (rev u)) as [k Hk].
    fold r in Hk. exists (rev k). rewrite <- rev_app_distr, <- Hk, rev_involutive.
    reflexivity. }
  rewrite (drop_spaces_none leading_space _ (rev r) Hv).
  rewrite rev_involutive.
  rewrite (drop_spaces_none trailing_space _ r Hr). reflexivity.
Qed.

(** A no-break space, U+00A0, is stripped like any other white space. *)
Example strip_no_break_space :
  strip (no_break_space +:+ " Hello" +:+ no_break_space) = "Hello".
Proof. vm_compute. reflexivity. Qed.

(** Every piece of [stripped_strings] is non-empty and carries no white
    space at either end. *)
Lemma stripped_strings_pieces (n : Node) (p : string) :
  p ∈ stripped_strings n → p ≠ "" ∧ strip p = p.
Proof.
  induction n as [text|text|name contents IH] using Node_children_ind;
    cbn [stripped_strings].
  - destruct (strip text) as [|c kept] eqn:E; [intros H; inversion H|].
    intros ->%list_elem_of_singleton. split; [discriminate|].
    rewrite <- E. apply strip_idemp.
  - intros H. inversion H.
  - intros Hp. apply list_elem_of_In, in_flat_map in Hp as (c & Hc & Hp).
    rewrite Forall_forall in IH. apply (IH c); apply list_elem_of_In; assumption.
Qed.

Lemma flat_map_sublist {A B : Type} (f g : A → list B) (l : list A) :
  Forall (λ x, f x `sublist_of` g x) l → flat_map f l `sublist_of` flat_map g l.
Proof.
  induction 1 as [|x l Hx _ IH]; cbn [flat_map]; [constructor|].
  apply sublist_app; assumption.
Qed.

Lemma flat_map_flat_map {A B C : Type} (f : B → list C) (g : A → list B) (l : list A) :
  flat_map f (flat_map g l) = flat_map (λ x, flat_map f (g x)) l.
Proof.
  induction l as [|x l IH]; cbn [flat_map]; [reflexivity|].
  rewrite flat_map_app, IH. reflexivity.
Qed.

(** Decomposing removes text and keeps the order of what is left. *)
Lemma decompose_sublist (names : list string) (n : Node) :
  flat_map stripped_strings (decompose names n) `sublist_of` stripped_strings n.
Proof.
  induction n as [text|text|name contents IH] using Node_children_ind; cbn [decompose].
  - cbn [flat_map]. rewrite app_nil_r. reflexivity.
  - cbn [flat_map]. rewrite app_nil_r. reflexivity.
  - destruct (bool_decide (name ∈ names)); cbn [flat_map]; [apply sublist_nil_l|].
    rewrite app_nil_r. cbn [stripped_strings]. rewrite flat_map_flat_map.
    apply flat_map_sublist, IH.
Qed.

(** No tag with one of the names is left after decomposing. *)
Lemma decompose_free_of (names : list string) (n : Node) :
  forallb (free_of names) (decompose names n) = true.
Proof.
  induction n as [text|text|name contents IH] using Node_children_ind; cbn [decompose];
    [reflexivity|reflexivity|].
  destruct (bool_decide (name ∈ names)) eqn:E; [reflexivity|].
  cbn [forallb free_of]. rewrite E, andb_true_r. cbn [negb andb].
  induction IH as [|c l Hc _ IHl]; [reflexivity|]. cbn [flat_map].
  rewrite forallb_app, Hc, IHl. reflexivity.
Qed.

(** A tree without such a tag is left as it is. *)
Lemma decompose_free (names : list string) (n : Node) :
  free_of names n = true → decompose names n = [n].
Proof.
  induction n as [text|text|name contents IH] using Node_children_ind;
    cbn [decompose free_of]; [reflexivity|reflexivity|].
  intros [Hname Hall]%andb_true_iff. apply negb_true_iff in Hname. rewrite Hname.
  do 2 f_equal. induction IH as [|c l Hc _ IHl]; [reflexivity|].
  cbn [forallb] in Hall. apply andb_true_iff in Hall as [Hfc Hfl].
  cbn [flat_map]. rewrite (Hc Hfc), (IHl Hfl). reflexivity.
Qed.

(** X17. On a document the parser accepts, [remove_tags] returns pieces
    of the document's text joined by single spaces: the pieces are taken
    from the stripped strings of the document, in document order; each
    is non-empty and has no white space at either end; they are the
    strings of a tree that holds no [style] and no [script] tag; and a
    document without such tags loses no string. *)
Theorem remove_tags_keeps_visible_text (BeautifulSoup : value → Result (list Node))
    (html : value) (soup : list Node) (s : State) :
  html ≠ VNone → BeautifulSoup html = Ok soup →
  ∃ pieces kept,
    fst (remove_tags BeautifulSoup html s) = Ok (VStr (join " " pieces))
    ∧ pieces = flat_map stripped_strings kept
    ∧ forallb (free_of ["style"; "script"]) kept = true
    ∧ pieces `sublist_of` flat_map stripped_strings soup
    ∧ (∀ p, p ∈ pieces → p ≠ "" ∧ strip p = p)
    ∧ (forallb (free_of ["style"; "script"]) soup = true → kept = soup)
    ∧ events (snd (remove_tags BeautifulSoup html s)) = events s.
Proof.
  intros Hne Hsoup. rewrite remove_tags_run. cbn [fst snd].
  exists (flat_map stripped_strings (flat_map (decompose ["style"; "script"]) soup)),
         (flat_map (decompose ["style"; "script"]) soup).
  split.
  { unfold sanitized. destruct html; [congruence| |]; rewrite Hsoup; reflexivity. }
  split; [reflexivity|]. split.
  { clear. induction soup as [|n soup IH]; [reflexivity|]. cbn [flat_map].
    rewrite forallb_app, decompose_free_of, IH. reflexivity. }
  split.
  { rewrite flat_map_flat_map. apply flat_map_sublist, Forall_forall.
    intros n _. apply decompose_sublist. }
  split.
  { intros p Hp. apply list_elem_of_In, in_flat_map in Hp as (n & _ & Hp).
    apply (stripped_strings_pieces n), list_elem_of_In, Hp. }
  split.
  { clear. induction soup as [|n soup IH]; [reflexivity|]. cbn [forallb flat_map].
    intros [Hn Hrest]%andb_true_iff. rewrite (decompose_free _ n Hn), (IH Hrest).
    reflexivity. }
  unfold sanitize_log. destruct html; [congruence| |]; rewrite Hsoup;
    state_simpl; apply app_nil_r.
Qed.

Lemma remove_tags_keeps_visible_text_witness :
  ∃ pieces kept,
    fst (remove_tags styled_page_parser (VStr "<html>") blank)
      = Ok (VStr (join " " pieces))
    ∧ pieces = flat_map stripped_strings kept
    ∧ forallb (free_of ["style"; "script"]) kept = true
    ∧ pieces `sublist_of` flat_map stripped_strings styled_page
    ∧ (∀ p, p ∈ pieces → p ≠ "" ∧ strip p = p)
    ∧ (forallb (free_of ["style"; "script"]) styled_page = true → kept = styled_page)
    ∧ events (snd (remove_tags styled_page_parser (VStr "<html>") blank)) = events blank.
Proof.
  apply (remove_tags_keeps_visible_text styled_page_parser (VStr "<html>") styled_page blank).
  - discriminate.
  - reflexivity.
Defined.
